(** * Student enrollment agent: the enrollment tools and the tool-calling loop

    A shallow embedding of [src/tools.ts] (the five enrollment tools and
    their dispatcher [executeTool]) and of the tool-calling loop [_callLLM]
    of [src/server.ts] (which the integration tests replicate as [callLLM]),
    together with the properties of the specification that concern them.

    The store is the relational state the [sql] tagged template reads and
    writes: one row list per table, in insertion order, with the statements
    of [tools.ts] given their relational meaning (SELECT filters, INSERT
    appends, UPDATE rewrites the matching rows, DELETE removes them).  The
    constraints of the schema created in [onStart] are predicates on the
    store ([Schema]), assumed where a property needs them.  An INSERT that
    the code can reach with a row the schema refuses (a Student row, a chat
    message) fails: the statement throws and the store stays as it was.
    The other two INSERTs are only reached with rows the schema accepts: an
    Enrollment row after the lookups found the student, the course and no
    row of the pair, and the seed courses on an empty table.  The rows of a
    student in [enrollments] are read through the index of
    [UNIQUE(student_id, course_id)], in the order of the course ids. *)

From Stdlib Require Import ZArith Lia Sorted.
From stdpp Require Import gmap strings list pretty.


(** ** JavaScript values and strings *)

(** A property read from a tool-call argument object ([args.email]):
    [None] is [undefined], the value of a key the model left out.  Two such
    values are compared with [===], as the in-memory [sql] of the tests
    does for a WHERE condition. *)
Abbreviation jsval := (option string).

(** Interpolation of such a value in a template literal. *)
Definition js_str (v : jsval) : string := default "undefined" v.

(** Interpolation of an integer column. *)
Definition num_str (n : Z) : string := pretty n.

(** The line feed written ["\n"] in the source. *)
Definition nl : string := String (Ascii.ascii_of_nat 10) "".

(** [Array.prototype.join]. *)
Definition join (sep : string) (l : list string) : string := String.concat sep l.

(** ** How a call ends *)

(** A call returns a value, or a statement it runs throws; nothing in
    [tools.ts] or [server.ts] catches. *)
Inductive Completion (A : Type) : Type :=
  | Returned (value : A)
  | Threw.

Arguments Returned {A} value.
Arguments Threw {A}.

(** A call that cannot throw. *)
Definition returned {S : Type} (r : string * S) : Completion string * S :=
  (Returned r.1, r.2).

(** ** Data model ([src/utils.ts]) *)

Record Course := mkCourse {
  c_id : string;
  c_name : string;
  c_instructor : string;
  c_capacity : Z;
  c_enrolled_count : Z
}.

Record Student := mkStudent {
  s_id : string;
  s_name : jsval;
  s_email : jsval;
  s_created_at : string
}.

Record Enrollment := mkEnrollment {
  e_id : Z;
  e_student_id : jsval;
  e_course_id : jsval;
  e_enrolled_at : string
}.

Record ChatMessage := mkChatMessage {
  m_id : string;
  m_role : string;
  m_content : string;
  m_timestamp : string
}.

(** The four tables, and the counter that numbers enrollment rows. *)
Record Tables := mkTables {
  students : list Student;
  courses : list Course;
  enrollments : list Enrollment;
  chat_history : list ChatMessage;
  enrollmentIdCounter : Z
}.

(** ** The SQL statements of [tools.ts] *)

Module Sql.

(** [SELECT * FROM students WHERE id = ?] *)
Definition students_by_id (db : Tables) (id : jsval) : list Student :=
  filter (λ s, Some (s_id s) = id) (students db).

(** [SELECT * FROM students WHERE email = ?] *)
Definition students_by_email (db : Tables) (email : jsval) : list Student :=
  filter (λ s, s_email s = email) (students db).

(** [SELECT * FROM courses WHERE id = ?] *)
Definition courses_by_id (db : Tables) (id : jsval) : list Course :=
  filter (λ c, Some (c_id c) = id) (courses db).

(** The condition [student_id = ? AND course_id = ?]. *)
Definition is_pair (sid cid : jsval) (e : Enrollment) : Prop :=
  e_student_id e = sid ∧ e_course_id e = cid.

#[global] Instance is_pair_dec sid cid e : Decision (is_pair sid cid e).
Proof. unfold is_pair. apply _. Defined.

(** [SELECT * FROM enrollments WHERE student_id = ? AND course_id = ?] *)
Definition enrollments_of_pair (db : Tables) (sid cid : jsval) : list Enrollment :=
  filter (is_pair sid cid) (enrollments db).

(** What the schema asks of a new Student row: [name] and [email] NOT
    NULL (a missing argument is bound as NULL), [id] PRIMARY KEY, [email]
    UNIQUE. *)
Definition student_accepted (db : Tables) (s : Student) : Prop :=
  is_Some (s_name s) ∧ is_Some (s_email s)
  ∧ (s_id s ∉ s_id <$> students db)
  ∧ (s_email s ∉ s_email <$> students db).

#[global] Instance student_accepted_dec db s : Decision (student_accepted db s).
Proof. unfold student_accepted. apply _. Defined.

(** [INSERT INTO students (id, name, email, created_at) VALUES (...)];
    [None] when the statement throws. *)
Definition insert_student (db : Tables) (s : Student) : option Tables :=
  if decide (student_accepted db s)
  then Some (mkTables (students db ++ [s]) (courses db) (enrollments db)
                      (chat_history db) (enrollmentIdCounter db))
  else None.

(** [INSERT INTO enrollments (student_id, course_id, enrolled_at) VALUES (...)];
    the row gets the next id. *)
Definition insert_enrollment (db : Tables) (sid cid : jsval) (at_ : string) : Tables :=
  mkTables (students db) (courses db)
           (enrollments db ++ [mkEnrollment (enrollmentIdCounter db) sid cid at_])
           (chat_history db) (enrollmentIdCounter db + 1)%Z.

(** One row of [UPDATE courses SET enrolled_count = enrolled_count + delta WHERE id = ?]. *)
Definition bump (cid : jsval) (delta : Z) (c : Course) : Course :=
  if decide (Some (c_id c) = cid)
  then mkCourse (c_id c) (c_name c) (c_instructor c) (c_capacity c)
                (c_enrolled_count c + delta)%Z
  else c.

(** [UPDATE courses SET enrolled_count = enrolled_count + delta WHERE id = ?] *)
Definition update_enrolled_count (db : Tables) (cid : jsval) (delta : Z) : Tables :=
  mkTables (students db) (bump cid delta <$> courses db) (enrollments db)
           (chat_history db) (enrollmentIdCounter db).

(** [DELETE FROM enrollments WHERE student_id = ? AND course_id = ?] *)
Definition delete_enrollments (db : Tables) (sid cid : jsval) : Tables :=
  mkTables (students db) (courses db)
           (filter (λ e, ¬ is_pair sid cid e) (enrollments db))
           (chat_history db) (enrollmentIdCounter db).

(** [ORDER BY key]: a stable sort on a text column, bytewise. *)
Fixpoint insert_by {A} (key : A → string) (x : A) (l : list A) : list A :=
  match l with
  | [] => [x]
  | y :: l' => if String.leb (key x) (key y) then x :: l else y :: insert_by key x l'
  end.

Definition order_by {A} (key : A → string) (l : list A) : list A :=
  foldr (insert_by key) [] l.

(** [SELECT * FROM courses ORDER BY id] *)
Definition courses_ordered (db : Tables) : list Course :=
  order_by c_id (courses db).

(** The text a [course_id] is ordered by in the index of
    [UNIQUE(student_id, course_id)]; a NULL, which the schema refuses, is
    put with the empty text. *)
Definition course_key (e : Enrollment) : string := default "" (e_course_id e).

(** [SELECT e.*, c.name as course_name, c.instructor FROM enrollments e
     JOIN courses c ON e.course_id = c.id WHERE e.student_id = ?
     ORDER BY e.enrolled_at].  The rows of a student are read through the
    index of [UNIQUE(student_id, course_id)], so rows with the same
    [enrolled_at] come in the order of their [course_id]. *)
Definition enrollments_joined (db : Tables) (sid : jsval) : list (Enrollment * Course) :=
  order_by (λ ec, e_enrolled_at ec.1)
    (order_by (λ ec, course_key ec.1)
       (filter (λ ec, e_student_id ec.1 = sid)
          (flat_map (λ e, (λ c, (e, c)) <$> filter (λ c, Some (c_id c) = e_course_id e) (courses db))
                    (enrollments db)))).

End Sql.

(** ** Tool descriptors *)

Record ToolDescriptor := mkTool {
  td_name : string;
  td_description : string;
  td_required : list string
}.

Definition TOOL_DESCRIPTORS : list ToolDescriptor :=
  [ mkTool "register_student"
      "Register a new student in the system. Returns the student ID."
      ["name"; "email"];
    mkTool "list_courses"
      "List all available courses with their current enrollment counts and remaining capacity."
      [];
    mkTool "enroll_student" "Enroll a student in a course."
      ["student_id"; "course_id"];
    mkTool "drop_course" "Drop (unenroll) a student from a course."
      ["student_id"; "course_id"];
    mkTool "check_enrollment"
      "Check all courses a student is currently enrolled in."
      ["student_id"] ].

(** ** Tool execution functions

    Each tool returns its result string and the store it leaves;
    [registerStudent], whose INSERT can be refused, throws instead.  The two
    values a tool draws from its environment are arguments: [rnd] is
    [Math.random().toString(36).substring(2, 8).toUpperCase()] and [now] is
    [new Date().toISOString()]. *)

Record RegisterArgs := mkRegisterArgs { a_name : jsval; a_email : jsval }.
Record PairArgs := mkPairArgs { a_student_id : jsval; a_course_id : jsval }.

Definition registerStudent (rnd now : string) (sql : Tables) (args : RegisterArgs)
  : Completion string * Tables :=
  match Sql.students_by_email sql (a_email args) with
  | existing0 :: _ =>
      (Returned ("Student already registered with email " +:+ js_str (a_email args)
                   +:+ ". Student ID: " +:+ s_id existing0), sql)
  | [] =>
      let id := "STU-" +:+ rnd in
      match Sql.insert_student sql (mkStudent id (a_name args) (a_email args) now) with
      | None => (Threw, sql)
      | Some sql1 =>
          (Returned ("Student registered successfully. Student ID: " +:+ id
                       +:+ ", Name: " +:+ js_str (a_name args) +:+ ", Email: "
                       +:+ js_str (a_email args)), sql1)
      end
  end.

Definition course_line (c : Course) : string :=
  "- " +:+ c_id c +:+ ": " +:+ c_name c +:+ " (Instructor: " +:+ c_instructor c
    +:+ ", Enrolled: " +:+ num_str (c_enrolled_count c) +:+ "/"
    +:+ num_str (c_capacity c) +:+ ")".

Definition listCourses (sql : Tables) : string * Tables :=
  match Sql.courses_ordered sql with
  | [] => ("No courses are currently available.", sql)
  | cs => ("Available courses:" +:+ nl +:+ join nl (course_line <$> cs), sql)
  end.

Definition enrollStudent (now : string) (sql : Tables) (args : PairArgs)
  : string * Tables :=
  match Sql.students_by_id sql (a_student_id args) with
  | [] =>
      ("Error: Student " +:+ js_str (a_student_id args)
         +:+ " not found. Please register first.", sql)
  | student0 :: _ =>
    match Sql.courses_by_id sql (a_course_id args) with
    | [] => ("Error: Course " +:+ js_str (a_course_id args) +:+ " not found.", sql)
    | course :: _ =>
      if decide (c_enrolled_count course >= c_capacity course)%Z then
        ("Error: Course " +:+ js_str (a_course_id args) +:+ " (" +:+ c_name course
           +:+ ") is full (" +:+ num_str (c_capacity course) +:+ "/"
           +:+ num_str (c_capacity course) +:+ ").", sql)
      else
        match Sql.enrollments_of_pair sql (a_student_id args) (a_course_id args) with
        | _ :: _ =>
            ("Student " +:+ js_str (a_student_id args) +:+ " is already enrolled in "
               +:+ js_str (a_course_id args) +:+ ".", sql)
        | [] =>
            let sql1 := Sql.insert_enrollment sql (a_student_id args) (a_course_id args) now in
            let sql2 := Sql.update_enrolled_count sql1 (a_course_id args) 1 in
            ("Successfully enrolled student " +:+ js_str (a_student_id args) +:+ " ("
               +:+ js_str (s_name student0) +:+ ") in " +:+ js_str (a_course_id args)
               +:+ " (" +:+ c_name course +:+ ").", sql2)
        end
    end
  end.

Definition dropCourse (sql : Tables) (args : PairArgs) : string * Tables :=
  match Sql.enrollments_of_pair sql (a_student_id args) (a_course_id args) with
  | [] =>
      ("Student " +:+ js_str (a_student_id args) +:+ " is not enrolled in "
         +:+ js_str (a_course_id args) +:+ ".", sql)
  | _ :: _ =>
      let sql1 := Sql.delete_enrollments sql (a_student_id args) (a_course_id args) in
      let sql2 := Sql.update_enrolled_count sql1 (a_course_id args) (-1) in
      ("Successfully dropped student " +:+ js_str (a_student_id args)
         +:+ " from course " +:+ js_str (a_course_id args) +:+ ".", sql2)
  end.

Definition enrollment_line (ec : Enrollment * Course) : string :=
  "- " +:+ js_str (e_course_id ec.1) +:+ ": " +:+ c_name ec.2 +:+ " (Instructor: "
    +:+ c_instructor ec.2 +:+ ", Enrolled: " +:+ e_enrolled_at ec.1 +:+ ")".

Definition checkEnrollment (sql : Tables) (sid : jsval) : string * Tables :=
  match Sql.students_by_id sql sid with
  | [] => ("Error: Student " +:+ js_str sid +:+ " not found.", sql)
  | student0 :: _ =>
    match Sql.enrollments_joined sql sid with
    | [] =>
        ("Student " +:+ js_str (s_name student0) +:+ " (" +:+ js_str sid
           +:+ ") is not enrolled in any courses.", sql)
    | es =>
        ("Enrollments for " +:+ js_str (s_name student0) +:+ " (" +:+ js_str sid
           +:+ "):" +:+ nl +:+ join nl (enrollment_line <$> es), sql)
    end
  end.

(** Dispatch a tool call by name.  [args] is the argument object of the
    call; the casts of the source read the named properties off it. *)
Definition executeTool (rnd now : string) (sql : Tables) (name : string)
    (args : gmap string string) : Completion string * Tables :=
  if String.eqb name "register_student" then
    registerStudent rnd now sql (mkRegisterArgs (args !! "name") (args !! "email"))
  else if String.eqb name "list_courses" then
    returned (listCourses sql)
  else if String.eqb name "enroll_student" then
    returned (enrollStudent now sql (mkPairArgs (args !! "student_id") (args !! "course_id")))
  else if String.eqb name "drop_course" then
    returned (dropCourse sql (mkPairArgs (args !! "student_id") (args !! "course_id")))
  else if String.eqb name "check_enrollment" then
    returned (checkEnrollment sql (args !! "student_id"))
  else
    (Returned ("Unknown tool: " +:+ name), sql).

(** ** The tool-calling loop ([_callLLM] in [src/server.ts]) *)

(** One turn of the sequence handed to the model. *)
Record Message := mkMessage { role : string; content : string }.

Record ToolCall := mkToolCall {
  tc_name : string;
  tc_arguments : gmap string string
}.

(** What [env.AI.run] resolves to: both fields are optional. *)
Record AIResponse := mkAIResponse {
  response : option string;
  tool_calls : option (list ToolCall)
}.

(** The state the loop works on: the [messages] array it pushes to, the
    store behind [this.sql], the responses received from the model so far
    (one per invocation, oldest first) and the number of tool dispatches
    made, which indexes the values the tools draw from their environment. *)
Record Agent := mkAgent {
  messages : list Message;
  sql : Tables;
  ai_calls : list AIResponse;
  draws : nat
}.

(** [response.tool_calls && response.tool_calls.length > 0] *)
Definition requests_tools (r : AIResponse) : bool :=
  match tool_calls r with
  | Some (_ :: _) => true
  | _ => false
  end.

(** Truthiness of [response.response]: a string that is not empty. *)
Definition has_text (r : AIResponse) : bool :=
  match response r with
  | Some s => negb (String.eqb s "")
  | None => false
  end.

Definition maxRounds : nat := 5.

Definition FALLBACK_UNPROCESSED : string :=
  "I'm sorry, I couldn't process that request. Could you rephrase?".

Definition FALLBACK_EXHAUSTED : string :=
  "I completed the requested operations. Is there anything else I can help you with?".

Section Orchestrator.

(** The model: its answer to the [n]-th invocation (counted from 0) on
    the turn sequence it is shown. *)
Variable AI_run : nat → list Message → AIResponse.

(** [JSON.stringify] on an argument object. *)
Variable JSON_stringify : gmap string string → string.

(** The random suffix and the timestamp available to the [n]-th dispatch. *)
Variable random_suffix : nat → string.
Variable now_iso : nat → string.

Definition toolCallSummary (tcs : list ToolCall) : string :=
  join nl ((λ tc, "[Calling " +:+ tc_name tc +:+ "("
                    +:+ JSON_stringify (tc_arguments tc) +:+ ")]") <$> tcs).

(** The turn pushed for one executed call. *)
Definition result_turn (tc : ToolCall) (result : string) : Message :=
  mkMessage "user" ("Tool result for " +:+ tc_name tc +:+ ": " +:+ result).

(** Body of [for (const toolCall of response.tool_calls)]: when the tool
    throws, nothing is pushed; the values drawn for the call are used up
    either way. *)
Definition dispatch (st : Agent) (toolCall : ToolCall) : Completion unit * Agent :=
  match executeTool (random_suffix (draws st)) (now_iso (draws st)) (sql st)
                    (tc_name toolCall) (tc_arguments toolCall) with
  | (Returned result, sql1) =>
      (Returned (), mkAgent (messages st ++ [result_turn toolCall result]) sql1
                            (ai_calls st) (S (draws st)))
  | (Threw, sql1) =>
      (Threw, mkAgent (messages st) sql1 (ai_calls st) (S (draws st)))
  end.

(** [for (const toolCall of response.tool_calls)]: a call that throws ends
    the loop, the calls after it are not made. *)
Fixpoint dispatch_all (st : Agent) (tcs : list ToolCall) : Completion unit * Agent :=
  match tcs with
  | [] => (Returned (), st)
  | toolCall :: tcs' =>
      match dispatch st toolCall with
      | (Returned _, st1) => dispatch_all st1 tcs'
      | (Threw, st1) => (Threw, st1)
      end
  end.

(** The state after the model answered [r]. *)
Definition received (st : Agent) (r : AIResponse) : Agent :=
  mkAgent (messages st) (sql st) (ai_calls st ++ [r]) (draws st).

(** [messages.push({ role: "assistant", content: toolCallSummary })] *)
Definition push_summary (st : Agent) (tcs : list ToolCall) : Agent :=
  mkAgent (messages st ++ [mkMessage "assistant" (toolCallSummary tcs)])
          (sql st) (ai_calls st) (draws st).

(** The [for] loop with [left] rounds to go ([left = maxRounds - round]);
    a tool that throws ends it without a reply. *)
Fixpoint rounds (left : nat) (st : Agent) : Completion string * Agent :=
  match left with
  | O => (Returned FALLBACK_EXHAUSTED, st)
  | S left' =>
      let r := AI_run (length (ai_calls st)) (messages st) in
      let st1 := received st r in
      match tool_calls r with
      | Some (tc :: tcs) =>
          match dispatch_all (push_summary st1 (tc :: tcs)) (tc :: tcs) with
          | (Returned _, st2) => rounds left' st2
          | (Threw, st2) => (Threw, st2)
          end
      | _ =>
          match response r with
          | Some text => if String.eqb text "" then (Returned FALLBACK_UNPROCESSED, st1)
                         else (Returned text, st1)
          | None => (Returned FALLBACK_UNPROCESSED, st1)
          end
      end
  end.

Definition callLLM (st : Agent) : Completion string * Agent := rounds maxRounds st.

End Orchestrator.

(** ** Constraints of the schema and the derived consistency rule *)

Module Schema.

(** [students.email ... UNIQUE] *)
Definition email_unique (db : Tables) : Prop :=
  ∀ email, length (Sql.students_by_email db email) ≤ 1.

(** [courses.id ... PRIMARY KEY] *)
Definition course_pk (db : Tables) : Prop :=
  ∀ c1 c2, c1 ∈ courses db → c2 ∈ courses db → c_id c1 = c_id c2 → c1 = c2.

(** [UNIQUE(student_id, course_id)] on [enrollments] *)
Definition pair_unique (db : Tables) : Prop :=
  ∀ sid cid, length (Sql.enrollments_of_pair db sid cid) ≤ 1.

(** The Enrollment rows that reference course [c]. *)
Definition rows_of_course (db : Tables) (c : Course) : list Enrollment :=
  filter (λ e, e_course_id e = Some (c_id c)) (enrollments db).

(** [enrolled_count] equals the number of Enrollment rows of the course. *)
Definition counts_consistent (db : Tables) : Prop :=
  ∀ c, c ∈ courses db → c_enrolled_count c = Z.of_nat (length (rows_of_course db c)).

End Schema.

(** ** Sequences of operations *)

(** One call of one of the five tools, with the values it draws. *)
Inductive Operation :=
  | OpRegister (rnd now : string) (args : RegisterArgs)
  | OpList
  | OpEnroll (now : string) (args : PairArgs)
  | OpDrop (args : PairArgs)
  | OpCheck (student_id : jsval).

Definition perform (db : Tables) (op : Operation) : Completion string * Tables :=
  match op with
  | OpRegister rnd now args => registerStudent rnd now db args
  | OpList => returned (listCourses db)
  | OpEnroll now args => returned (enrollStudent now db args)
  | OpDrop args => returned (dropCourse db args)
  | OpCheck sid => returned (checkEnrollment db sid)
  end.

(** The store after a sequence of operations, performed left to right. *)
Definition perform_all (db : Tables) (ops : list Operation) : Tables :=
  foldl (λ db op, (perform db op).2) db ops.

(** How one operation changes the [courses] and [enrollments] tables: not
    at all; or, for an enrollment of a pair that has no row yet, one row
    more and one added to the count of the course; or, for a drop of a pair
    that has a row, the rows of the pair removed and one taken from the
    count of the course. *)
Inductive effect (db : Tables) : Operation → Tables → Prop :=
  | effect_none op db' :
      courses db' = courses db → enrollments db' = enrollments db →
      effect db op db'
  | effect_enroll now args db' :
      Sql.enrollments_of_pair db (a_student_id args) (a_course_id args) = [] →
      enrollments db' =
        enrollments db ++ [mkEnrollment (enrollmentIdCounter db) (a_student_id args)
                                         (a_course_id args) now] →
      courses db' = Sql.bump (a_course_id args) 1 <$> courses db →
      effect db (OpEnroll now args) db'
  | effect_drop args db' :
      Sql.enrollments_of_pair db (a_student_id args) (a_course_id args) ≠ [] →
      enrollments db' =
        filter (λ e, ¬ Sql.is_pair (a_student_id args) (a_course_id args) e)
               (enrollments db) →
      courses db' = Sql.bump (a_course_id args) (-1) <$> courses db →
      effect db (OpDrop args) db'.

(** The outcome of a successful [enrollStudent]. *)
Definition enrolled_ok (result : string) : bool :=
  String.prefix "Successfully enrolled" result.

(** The "course full" outcome, for any course. *)
Definition course_full_outcome (result : string) : Prop :=
  ∃ cid name cap, result =
    "Error: Course " +:+ cid +:+ " (" +:+ name +:+ ") is full (" +:+ num_str cap
      +:+ "/" +:+ num_str cap +:+ ").".

(** The "already enrolled" outcome, for any student and course. *)
Definition already_enrolled_outcome (result : string) : Prop :=
  ∃ sid cid, result = "Student " +:+ sid +:+ " is already enrolled in " +:+ cid +:+ ".".

(** The last two characters of a string (the string itself when shorter). *)
Fixpoint last2 (s : string) : string :=
  match s with
  | String _ ((String _ (String _ _)) as t) => last2 t
  | _ => s
  end.

(** ** The agent ([src/server.ts])

    The methods are named as in the replica of the integration tests
    ([syncState], [handleChat], [handleHistory] for [_syncState],
    [_handleChat], [_handleHistory]). *)

(** An entry of [SEED_COURSES]: a course without its count. *)
Record SeedCourse := mkSeed {
  seed_id : string;
  seed_name : string;
  seed_instructor : string;
  seed_capacity : Z
}.

Definition SEED_COURSES : list SeedCourse :=
  [ mkSeed "CS101" "Introduction to Computer Science" "Dr. Smith" 30;
    mkSeed "MATH201" "Linear Algebra" "Dr. Johnson" 25;
    mkSeed "ENG102" "English Composition" "Prof. Williams" 35;
    mkSeed "PHYS101" "Physics I" "Dr. Brown" 20;
    mkSeed "HIST101" "World History" "Prof. Davis" 40 ].

(** The state synced to the clients; [None] is [null]. *)
Record EnrollmentState := mkState {
  currentStudentId : option string;
  currentStudentName : option string;
  enrolledCourses : list jsval;
  availableCourses : list Course
}.

Definition INITIAL_STATE : EnrollmentState := mkState None None [] [].

Definition SYSTEM_PROMPT : string :=
"You are a helpful student enrollment assistant. You help students register, browse courses, enroll in courses, drop courses, and check their enrollment status.

Available operations (use the provided tools):
- register_student: Register a new student (requires name and email)
- list_courses: Show all available courses with enrollment counts
- enroll_student: Enroll a student in a course (requires student_id and course_id)
- drop_course: Drop a student from a course (requires student_id and course_id)
- check_enrollment: Check what courses a student is enrolled in (requires student_id)

Guidelines:
- Be friendly and concise.
- When a user wants to enroll, first check if they are registered. If not, ask for their name and email to register them.
- Always confirm actions with the user before proceeding.
- After enrolling or dropping, summarize the updated enrollment status.
- If the user asks something unrelated, politely redirect them to enrollment tasks.".

(** The SQL statements of [server.ts]. *)
Module ServerSql.

(** [INSERT INTO courses (id, name, instructor, capacity, enrolled_count)
     VALUES (..., 0)] *)
Definition insert_course (db : Tables) (c : SeedCourse) : Tables :=
  mkTables (students db)
           (courses db ++ [mkCourse (seed_id c) (seed_name c) (seed_instructor c)
                                    (seed_capacity c) 0])
           (enrollments db) (chat_history db) (enrollmentIdCounter db).

(** [INSERT INTO chat_history (id, role, content, timestamp) VALUES (...)];
    [None] when the statement throws: [id] is the PRIMARY KEY. *)
Definition insert_message (db : Tables) (m : ChatMessage) : option Tables :=
  if decide (m_id m ∉ m_id <$> chat_history db)
  then Some (mkTables (students db) (courses db) (enrollments db)
                      (chat_history db ++ [m]) (enrollmentIdCounter db))
  else None.

(** [ORDER BY key DESC]: a stable sort on a text column, bytewise. *)
Fixpoint insert_by_desc {A} (key : A → string) (x : A) (l : list A) : list A :=
  match l with
  | [] => [x]
  | y :: l' => if String.leb (key y) (key x) then x :: l else y :: insert_by_desc key x l'
  end.

Definition order_by_desc {A} (key : A → string) (l : list A) : list A :=
  foldr (insert_by_desc key) [] l.

(** [SELECT role, content FROM chat_history ORDER BY timestamp DESC LIMIT 20] *)
Definition recent_turns (db : Tables) : list Message :=
  (λ m, mkMessage (m_role m) (m_content m))
    <$> take 20 (order_by_desc m_timestamp (chat_history db)).

(** [SELECT id, role, content, timestamp FROM chat_history ORDER BY timestamp ASC] *)
Definition all_messages (db : Tables) : list ChatMessage :=
  Sql.order_by m_timestamp (chat_history db).

(** [SELECT course_id FROM enrollments WHERE student_id = ?]: answered
    from the index of [UNIQUE(student_id, course_id)], in the order of the
    course ids. *)
Definition course_ids_of (db : Tables) (studentId : string) : list jsval :=
  e_course_id
    <$> Sql.order_by Sql.course_key
          (filter (λ e, e_student_id e = Some studentId) (enrollments db)).

End ServerSql.

(** The Durable Object: its store, its synced state, and the two counters
    of the loop (responses received from the model, tool dispatches made). *)
Record EnrollmentAgent := mkEnrollmentAgent {
  ea_sql : Tables;
  ea_state : EnrollmentState;
  ea_ai_calls : list AIResponse;
  ea_draws : nat
}.

(** [_syncState]: refresh the course list and the current student's
    course ids; the rest of the state is spread unchanged. *)
Definition syncState (a : EnrollmentAgent) : EnrollmentAgent :=
  let courses := Sql.courses_ordered (ea_sql a) in
  let enrolledCourses :=
    match currentStudentId (ea_state a) with
    | Some studentId =>
        if String.eqb studentId "" then []
        else ServerSql.course_ids_of (ea_sql a) studentId
    | None => []
    end in
  mkEnrollmentAgent (ea_sql a)
    (mkState (currentStudentId (ea_state a)) (currentStudentName (ea_state a))
             enrolledCourses courses)
    (ea_ai_calls a) (ea_draws a).

(** [onStart]: the tables exist already or are created empty; the courses
    are seeded when there is none; the state is synced. *)
Definition onStart (a : EnrollmentAgent) : EnrollmentAgent :=
  let sql1 :=
    if decide (length (courses (ea_sql a)) = 0)
    then foldl ServerSql.insert_course (ea_sql a) SEED_COURSES
    else ea_sql a in
  syncState (mkEnrollmentAgent sql1 (ea_state a) (ea_ai_calls a) (ea_draws a)).

(** [String.prototype.endsWith]. *)
Definition endsWith (s suffix : string) : bool :=
  let n := String.length s in
  let k := String.length suffix in
  if decide (k ≤ n) then String.eqb (String.substring (n - k) k s) suffix else false.

(** A request as [onRequest] reads it: the path of its URL, its method and
    the [message] property of its JSON body. *)
Record Request := mkRequest {
  pathname : string;
  method : string;
  body_message : jsval
}.

Inductive Body :=
  | JsonError (error : string)
  | JsonReply (reply : string) (state : EnrollmentState)
  | JsonMessages (messages : list ChatMessage)
  | PlainText (text : string).

Record Response := mkResponse { status : nat; body : Body }.

(** The ids and timestamps one chat request draws for its two rows. *)
Record ChatDraws := mkChatDraws {
  user_id : string;
  user_time : string;
  assistant_id : string;
  assistant_time : string
}.

(** The turn sequence [_handleChat] builds for the model. *)
Definition chat_context (db : Tables) : list Message :=
  mkMessage "system" SYSTEM_PROMPT :: reverse (ServerSql.recent_turns db).

Section Server.

Variable AI_run : nat → list Message → AIResponse.
Variable JSON_stringify : gmap string string → string.
Variable random_suffix : nat → string.
Variable now_iso : nat → string.

(** [String.prototype.trim]. *)
Variable trim : string → string.

(** The agent where a chat stopped on a throw: the store and the counters
    as they were then, the state not synced. *)
Definition stopped (a : EnrollmentAgent) (ag : Agent) : EnrollmentAgent :=
  mkEnrollmentAgent (sql ag) (ea_state a) (ai_calls ag) (draws ag).

(** [_handleChat]; when it throws, the platform answers in its place. *)
Definition handleChat (d : ChatDraws) (a : EnrollmentAgent) (message : jsval)
  : Completion Response * EnrollmentAgent :=
  match trim <$> message with
  | None => (Returned (mkResponse 400 (JsonError "Empty message")), a)
  | Some userMessage =>
      if String.eqb userMessage ""
      then (Returned (mkResponse 400 (JsonError "Empty message")), a)
      else
        match ServerSql.insert_message (ea_sql a)
                (mkChatMessage (user_id d) "user" userMessage (user_time d)) with
        | None => (Threw, a)
        | Some sql1 =>
            match callLLM AI_run JSON_stringify random_suffix now_iso
                          (mkAgent (chat_context sql1) sql1 (ea_ai_calls a) (ea_draws a))
            with
            | (Threw, ag) => (Threw, stopped a ag)
            | (Returned assistantContent, ag) =>
                match ServerSql.insert_message (sql ag)
                        (mkChatMessage (assistant_id d) "assistant" assistantContent
                                       (assistant_time d)) with
                | None => (Threw, stopped a ag)
                | Some sql2 =>
                    let a' := syncState (mkEnrollmentAgent sql2 (ea_state a)
                                           (ai_calls ag) (draws ag)) in
                    (Returned (mkResponse 200 (JsonReply assistantContent (ea_state a'))),
                     a')
                end
            end
        end
  end.

Definition handleHistory (a : EnrollmentAgent) : Response :=
  mkResponse 200 (JsonMessages (ServerSql.all_messages (ea_sql a))).

Definition onRequest (d : ChatDraws) (a : EnrollmentAgent) (request : Request)
  : Completion Response * EnrollmentAgent :=
  if endsWith (pathname request) "/chat" && String.eqb (method request) "POST" then
    handleChat d a (body_message request)
  else if endsWith (pathname request) "/history" && String.eqb (method request) "GET" then
    (Returned (handleHistory a), a)
  else
    (Returned (mkResponse 404 (PlainText "Not found")), a).

(** The agent after a sequence of requests, served one after the other. *)
Definition serve_all (a : EnrollmentAgent) (requests : list (ChatDraws * Request))
  : EnrollmentAgent :=
  foldl (λ a dr, (onRequest dr.1 a dr.2).2) a requests.

End Server.

(** ** Predicates used in the further properties *)

(** Every Enrollment row names an existing student and an existing course. *)
Definition references_exist (db : Tables) : Prop :=
  ∀ e, e ∈ enrollments db →
    (∃ s, s ∈ students db ∧ e_student_id e = Some (s_id s))
    ∧ (∃ c, c ∈ courses db ∧ e_course_id e = Some (c_id c)).

(** No course has more enrollments counted than it has seats. *)
Definition within_capacity (db : Tables) : Prop :=
  ∀ c, c ∈ courses db → (c_enrolled_count c <= c_capacity c)%Z.

(** The columns of a course no tool writes. *)
Definition catalogue_entry (c : Course) : string * string * string * Z :=
  (c_id c, c_name c, c_instructor c, c_capacity c).

(** The number of tool calls a response asks for. *)
Definition requested (r : AIResponse) : nat :=
  match tool_calls r with
  | Some tcs => length tcs
  | None => 0
  end.

(** A response that asks for no [register_student] call. *)
Definition no_registration (r : AIResponse) : Prop :=
  ∀ tcs, tool_calls r = Some tcs →
         Forall (λ tc, tc_name tc ≠ "register_student") tcs.

(** The constraints of the schema and the consistency rules, together. *)
Definition store_ok (db : Tables) : Prop :=
  Schema.email_unique db ∧ Schema.course_pk db ∧ Schema.pair_unique db
  ∧ Schema.counts_consistent db ∧ within_capacity db ∧ references_exist db.

(** The store before [onStart] has ever run. *)
Definition empty_tables : Tables := mkTables [] [] [] [] 1.

Definition new_agent : EnrollmentAgent :=
  mkEnrollmentAgent empty_tables INITIAL_STATE [] 0.

(** ** Sample data *)

Module Sample.

Definition stamp : string := "2025-01-01T00:00:00.000Z".

Definition alice : Student :=
  mkStudent "STU-A1B2C3" (Some "Alice") (Some "alice@x.edu") stamp.

(** CS101 with a single seat, and MATH201 as seeded. *)
Definition cs101 (enrolled : Z) : Course :=
  mkCourse "CS101" "Introduction to Computer Science" "Dr. Smith" 1 enrolled.

Definition math201 : Course :=
  mkCourse "MATH201" "Linear Algebra" "Dr. Johnson" 25 0.

(** Alice is registered and enrolled nowhere. *)
Definition db_open : Tables :=
  mkTables [alice] [cs101 0; math201] [] [] 1.

(** Alice holds the only seat of CS101. *)
Definition db_taken : Tables :=
  mkTables [alice] [cs101 1; math201]
           [mkEnrollment 1 (Some "STU-A1B2C3") (Some "CS101") stamp] [] 2.

Definition alice_cs101 : PairArgs := mkPairArgs (Some "STU-A1B2C3") (Some "CS101").
Definition alice_math201 : PairArgs := mkPairArgs (Some "STU-A1B2C3") (Some "MATH201").
Definition alice_fake999 : PairArgs := mkPairArgs (Some "STU-A1B2C3") (Some "FAKE999").

Definition some_ops : list Operation :=
  [ OpDrop alice_cs101;
    OpEnroll stamp alice_math201;
    OpRegister "Q7W8E9" stamp (mkRegisterArgs (Some "Bob") (Some "bob@x.edu"));
    OpEnroll stamp (mkPairArgs (Some "STU-Q7W8E9") (Some "CS101"));
    OpEnroll stamp alice_cs101;
    OpList;
    OpDrop alice_math201;
    OpCheck (Some "STU-A1B2C3") ].

(** A model that asks for the course list in every round. *)
Definition ai_insatiable (n : nat) (turns : list Message) : AIResponse :=
  mkAIResponse None (Some [mkToolCall "list_courses" ∅]).

(** A model that answers nothing at all. *)
Definition ai_mute (n : nat) (turns : list Message) : AIResponse :=
  mkAIResponse None None.

Definition two_calls : list ToolCall :=
  [ mkToolCall "list_courses" ∅;
    mkToolCall "register_student" {[ "name" := "Eve"; "email" := "eve@test.com" ]} ].

(** A model that first asks for two tools at once, then answers. *)
Definition ai_two_calls (n : nat) (turns : list Message) : AIResponse :=
  match n with
  | O => mkAIResponse None (Some two_calls)
  | _ => mkAIResponse (Some "I've listed the courses and registered you.") None
  end.

(** Two calls, the first a registration that names nobody. *)
Definition bad_calls : list ToolCall :=
  [ mkToolCall "register_student" ∅; mkToolCall "list_courses" ∅ ].

(** A model that asks for [bad_calls] in every round. *)
Definition ai_careless (n : nat) (turns : list Message) : AIResponse :=
  mkAIResponse None (Some bad_calls).

Definition stringify (args : gmap string string) : string := "{...}".
Definition suffix (n : nat) : string := "EVE001".
Definition clock (n : nat) : string := stamp.

Definition agent0 : Agent :=
  mkAgent [ mkMessage "system" "You are a helpful student enrollment assistant.";
            mkMessage "user" "List courses and register me" ]
          db_open [] 0.

End Sample.

(** ** Sample data for the agent *)

Module Demo.

(** A stand-in for [trim] that strips spaces at both ends. *)
Fixpoint strip_left (s : string) : string :=
  match s with
  | String c s' => if Ascii.eqb c Ascii.Space then strip_left s' else s
  | EmptyString => s
  end.

Definition trim (s : string) : string :=
  String.rev (strip_left (String.rev (strip_left s))).

(** A model that enrolls Alice in MATH201, then answers. *)
Definition ai_enrolls (n : nat) (turns : list Message) : AIResponse :=
  match n with
  | O => mkAIResponse None
           (Some [mkToolCall "enroll_student"
                    {[ "student_id" := "STU-A1B2C3"; "course_id" := "MATH201" ]}])
  | _ => mkAIResponse (Some "You are enrolled in MATH201.") None
  end.

Definition draws1 : ChatDraws :=
  mkChatDraws "k3j9x0aa" "2025-01-01T00:00:03.000Z" "p0o9i8uu" "2025-01-01T00:00:04.000Z".

Definition draws2 : ChatDraws :=
  mkChatDraws "a1s2d3ff" "2025-01-01T00:00:05.000Z" "z9x8c7vv" "2025-01-01T00:00:06.000Z".

(** Alice holds the only seat of CS101; two turns are stored. *)
Definition db_chatty : Tables :=
  mkTables (students Sample.db_taken) (courses Sample.db_taken)
           (enrollments Sample.db_taken)
           [ mkChatMessage "q1w2e3rr" "user" "Hello" "2025-01-01T00:00:01.000Z";
             mkChatMessage "t5y6u7ii" "assistant" "Hi! How can I help?"
                           "2025-01-01T00:00:02.000Z" ]
           2.

Definition agent : EnrollmentAgent :=
  mkEnrollmentAgent db_chatty INITIAL_STATE [] 0.

Definition chat_request (text : string) : Request :=
  mkRequest "/agents/EnrollmentAgent/default/chat" "POST" (Some text).

End Demo.

(** * Properties *)

(** ** Strings and row lists *)

#[local] Arguments String.append : simpl nomatch.

Lemma length_append (a b : string) :
  String.length (a +:+ b) = String.length a + String.length b.
Proof. induction a as [|x a IH]; simpl; [done | by rewrite IH]. Qed.

Lemma last2_append (a b : string) :
  2 ≤ String.length b → last2 (a +:+ b) = last2 b.
Proof.
  intros Hb. induction a as [|x a IH]; [done|].
  change (String x a +:+ b) with (String x (a +:+ b)).
  pose proof (length_append a b) as Hlen.
  destruct (a +:+ b) as [|y [|z t]] eqn:E; simpl in Hlen; try lia.
  exact IH.
Qed.

Lemma filter_head {A} (P : A → Prop) `{!∀ x, Decision (P x)} (l : list A) x r :
  filter P l = x :: r → P x ∧ x ∈ l.
Proof.
  intros E. apply (list_elem_of_filter P). rewrite E. by left.
Qed.

Lemma filter_none {A} (P : A → Prop) `{!∀ x, Decision (P x)} (l : list A) :
  (∀ x, x ∈ l → ¬ P x) → filter P l = [].
Proof.
  intros Hno. destruct (filter P l) as [|x r] eqn:E; [done|].
  apply filter_head in E as [HP Hx]. by destruct (Hno x Hx).
Qed.

Lemma filter_some {A} (P : A → Prop) `{!∀ x, Decision (P x)} (l : list A) x :
  x ∈ l → P x → ∃ y r, filter P l = y :: r.
Proof.
  intros Hx HP. destruct (filter P l) as [|y r] eqn:E; [|eauto].
  by destruct (filter_nil_not_elem_of P l x E HP).
Qed.

(** ** The dispatcher *)

(** C10: for every tool name that is not the name of one of the five
    descriptors, [executeTool] returns ["Unknown tool: <name>"] and leaves the
    store as it was: it does not throw, and it yields a result string. *)
Theorem executeTool_unknown_tool rnd now db name args :
  name ∉ td_name <$> TOOL_DESCRIPTORS →
  executeTool rnd now db name args = (Returned ("Unknown tool: " +:+ name), db).
Proof.
  intros Hname. unfold executeTool.
  repeat match goal with
  | |- context [String.eqb name ?k] =>
      destruct (String.eqb_spec name k) as [->|_];
      [exfalso; apply Hname; cbn; set_solver|]
  end.
  reflexivity.
Qed.

(** ** Dropping *)

(** C7: when no Enrollment row exists for the (student, course) pair,
    [dropCourse] returns the "not enrolled" outcome and the store is
    unchanged. *)
Theorem dropCourse_not_enrolled db args :
  (∀ e, e ∈ enrollments db →
        ¬ (e_student_id e = a_student_id args ∧ e_course_id e = a_course_id args)) →
  dropCourse db args =
    ("Student " +:+ js_str (a_student_id args) +:+ " is not enrolled in "
       +:+ js_str (a_course_id args) +:+ ".", db).
Proof.
  intros Hnone. unfold dropCourse, Sql.enrollments_of_pair.
  by rewrite (filter_none _ _ Hnone).
Qed.

(** ** Enrolling *)

Section enroll_cases.
Context (now : string) (db : Tables) (args : PairArgs).

Lemma enroll_student_missing :
  (∀ s, s ∈ students db → a_student_id args ≠ Some (s_id s)) →
  enrollStudent now db args =
    ("Error: Student " +:+ js_str (a_student_id args)
       +:+ " not found. Please register first.", db).
Proof.
  intros Hno. unfold enrollStudent, Sql.students_by_id.
  rewrite filter_none; [done | intros s Hs E; by apply (Hno s)].
Qed.

Context (s : Student) (Hs : s ∈ students db)
        (Hsid : a_student_id args = Some (s_id s)).

Lemma enroll_student_found :
  ∃ s0 r, Sql.students_by_id db (a_student_id args) = s0 :: r.
Proof. by apply (filter_some _ _ s). Qed.

Lemma enroll_course_missing :
  (∀ c, c ∈ courses db → a_course_id args ≠ Some (c_id c)) →
  enrollStudent now db args =
    ("Error: Course " +:+ js_str (a_course_id args) +:+ " not found.", db).
Proof.
  intros Hno. unfold enrollStudent.
  destruct enroll_student_found as (? & ? & ->). unfold Sql.courses_by_id.
  rewrite filter_none; [done | intros c Hc E; by apply (Hno c)].
Qed.

Context (c : Course) (Hpk : Schema.course_pk db) (Hc : c ∈ courses db)
        (Hcid : a_course_id args = Some (c_id c)).

Lemma enroll_course_found :
  ∃ r, Sql.courses_by_id db (a_course_id args) = c :: r.
Proof.
  destruct (filter_some (λ c0, Some (c_id c0) = a_course_id args) _ c Hc)
    as (c0 & r & E); [done|].
  exists r. unfold Sql.courses_by_id. rewrite E.
  apply filter_head in E as [Hid Hc0].
  f_equal. apply Hpk; [done..|congruence].
Qed.

Lemma enroll_course_full :
  (c_enrolled_count c >= c_capacity c)%Z →
  enrollStudent now db args =
    ("Error: Course " +:+ c_id c +:+ " (" +:+ c_name c +:+ ") is full ("
       +:+ num_str (c_capacity c) +:+ "/" +:+ num_str (c_capacity c) +:+ ").", db).
Proof.
  intros Hfull. unfold enrollStudent.
  destruct enroll_student_found as (? & ? & ->).
  destruct enroll_course_found as (? & ->).
  rewrite decide_True by done. by rewrite Hcid.
Qed.

Lemma enroll_pair_present e :
  (c_enrolled_count c < c_capacity c)%Z →
  e ∈ enrollments db → e_student_id e = a_student_id args →
  e_course_id e = a_course_id args →
  enrollStudent now db args =
    ("Student " +:+ js_str (a_student_id args) +:+ " is already enrolled in "
       +:+ js_str (a_course_id args) +:+ ".", db).
Proof.
  intros Hfree He H1 H2. unfold enrollStudent.
  destruct enroll_student_found as (? & ? & ->).
  destruct enroll_course_found as (? & ->).
  rewrite decide_False by lia. unfold Sql.enrollments_of_pair.
  destruct (filter_some (Sql.is_pair (a_student_id args) (a_course_id args)) _ e He)
    as (? & ? & ->); done.
Qed.

End enroll_cases.

(** C4: when the student and the course exist and the course's
    [enrolled_count] equals its [capacity], [enrollStudent] returns the
    "full" outcome and the store is unchanged. *)
Theorem enrollStudent_full now db args s c :
  Schema.course_pk db →
  s ∈ students db → a_student_id args = Some (s_id s) →
  c ∈ courses db → a_course_id args = Some (c_id c) →
  c_enrolled_count c = c_capacity c →
  enrollStudent now db args =
    ("Error: Course " +:+ c_id c +:+ " (" +:+ c_name c +:+ ") is full ("
       +:+ num_str (c_capacity c) +:+ "/" +:+ num_str (c_capacity c) +:+ ").", db).
Proof.
  intros Hpk Hs Hsid Hc Hcid Hfull.
  apply (enroll_course_full now db args s); [done..|lia].
Qed.

Lemma not_found_not_full (cid : string) :
  ¬ course_full_outcome ("Error: Course " +:+ cid +:+ " not found.").
Proof.
  intros (cid' & name & cap & E). apply (f_equal last2) in E.
  repeat rewrite last2_append in E by (rewrite ?length_append; simpl; lia).
  discriminate E.
Qed.

(** C9: [enrollStudent] checks, in this order, that the student exists, that
    the course exists, that the course is not at capacity and that the pair
    is not enrolled yet.  A call naming no existing student gets "student
    not found" whatever the course argument; a call naming an existing
    student and no existing course gets "course not found", which is neither
    a "course full" nor an "already enrolled" outcome; a course at capacity
    is reported full before the pair is looked up; and only then is an
    existing enrollment reported. *)
Theorem enrollStudent_check_order now db args :
  ((∀ s, s ∈ students db → a_student_id args ≠ Some (s_id s)) →
     enrollStudent now db args =
       ("Error: Student " +:+ js_str (a_student_id args)
          +:+ " not found. Please register first.", db)
     ∧ ¬ course_full_outcome (enrollStudent now db args).1
     ∧ ¬ already_enrolled_outcome (enrollStudent now db args).1)
  ∧ (∀ s, s ∈ students db → a_student_id args = Some (s_id s) →
     (∀ c, c ∈ courses db → a_course_id args ≠ Some (c_id c)) →
     enrollStudent now db args =
       ("Error: Course " +:+ js_str (a_course_id args) +:+ " not found.", db)
     ∧ ¬ course_full_outcome (enrollStudent now db args).1
     ∧ ¬ already_enrolled_outcome (enrollStudent now db args).1)
  ∧ (∀ s c, s ∈ students db → a_student_id args = Some (s_id s) →
     Schema.course_pk db → c ∈ courses db → a_course_id args = Some (c_id c) →
     (c_enrolled_count c >= c_capacity c)%Z →
     course_full_outcome (enrollStudent now db args).1
     ∧ (enrollStudent now db args).2 = db)
  ∧ (∀ s c e, s ∈ students db → a_student_id args = Some (s_id s) →
     Schema.course_pk db → c ∈ courses db → a_course_id args = Some (c_id c) →
     (c_enrolled_count c < c_capacity c)%Z →
     e ∈ enrollments db → e_student_id e = a_student_id args →
     e_course_id e = a_course_id args →
     enrollStudent now db args =
       ("Student " +:+ js_str (a_student_id args) +:+ " is already enrolled in "
          +:+ js_str (a_course_id args) +:+ ".", db)).
Proof.
  split; [|split; [|split]].
  - intros Hno. rewrite enroll_student_missing by done.
    split; [done|]. split.
    + intros (? & ? & ? & E). simpl in E. discriminate E.
    + intros (? & ? & E). simpl in E. discriminate E.
  - intros s Hs Hsid Hno. rewrite (enroll_course_missing now db args s) by done.
    split; [done|]. split.
    + apply not_found_not_full.
    + intros (? & ? & E). simpl in E. discriminate E.
  - intros s c Hs Hsid Hpk Hc Hcid Hfull.
    rewrite (enroll_course_full now db args s Hs Hsid c) by done.
    split; [|done]. by eexists _, _, _.
  - intros s c e Hs Hsid Hpk Hc Hcid Hfree He H1 H2.
    by apply (enroll_pair_present now db args s Hs Hsid c Hpk Hc Hcid e).
Qed.

Lemma bump_id cid d c : c_id (Sql.bump cid d c) = c_id c.
Proof. unfold Sql.bump. by case_decide. Qed.

Lemma courses_by_id_bump cid' cid d (l : list Course) :
  filter (λ c, Some (c_id c) = cid') (Sql.bump cid d <$> l)
  = Sql.bump cid d <$> filter (λ c, Some (c_id c) = cid') l.
Proof.
  induction l as [|c l IH]; [done|].
  rewrite fmap_cons, !filter_cons, bump_id, IH. by case_decide.
Qed.

(** What a successful [enrollStudent] found and did. *)
Lemma enroll_success_inv now db args :
  enrolled_ok (enrollStudent now db args).1 = true →
  ∃ s0 rs c0 rc,
    Sql.students_by_id db (a_student_id args) = s0 :: rs
    ∧ Sql.courses_by_id db (a_course_id args) = c0 :: rc
    ∧ (c_enrolled_count c0 < c_capacity c0)%Z
    ∧ Sql.enrollments_of_pair db (a_student_id args) (a_course_id args) = []
    ∧ (enrollStudent now db args).2 =
        Sql.update_enrolled_count
          (Sql.insert_enrollment db (a_student_id args) (a_course_id args) now)
          (a_course_id args) 1.
Proof.
  unfold enrollStudent, enrolled_ok.
  destruct (Sql.students_by_id db _) as [|s0 rs]; [simpl; discriminate|].
  destruct (Sql.courses_by_id db _) as [|c0 rc]; [simpl; discriminate|].
  case_decide as Hcap; [simpl; discriminate|].
  destruct (Sql.enrollments_of_pair db _ _) as [|e0 re]; [|simpl; discriminate].
  intros _. exists s0, rs, c0, rc. split_and!; [done|done|lia|done|done].
Qed.

(** C5 (as the code has it): after a successful [enrollStudent], a second
    call with the same (student, course) pair is rejected and leaves the
    store as the first call left it, with exactly one Enrollment row for the
    pair.  The outcome is "already enrolled" when the course still has a
    free seat after the first call, and "full" when the first call took the
    last seat: the capacity check comes before the duplicate check. *)
Theorem enrollStudent_twice now1 now2 db args :
  enrolled_ok (enrollStudent now1 db args).1 = true →
  let db1 := (enrollStudent now1 db args).2 in
  let second := enrollStudent now2 db1 args in
  second.2 = db1
  ∧ length (Sql.enrollments_of_pair second.2 (a_student_id args) (a_course_id args)) = 1
  ∧ ∃ c rest,
      Sql.courses_by_id db1 (a_course_id args) = c :: rest
      ∧ ((c_enrolled_count c < c_capacity c)%Z →
         second.1 = "Student " +:+ js_str (a_student_id args)
                      +:+ " is already enrolled in " +:+ js_str (a_course_id args) +:+ ".")
      ∧ ((c_enrolled_count c >= c_capacity c)%Z →
         second.1 = "Error: Course " +:+ js_str (a_course_id args) +:+ " ("
                      +:+ c_name c +:+ ") is full (" +:+ num_str (c_capacity c)
                      +:+ "/" +:+ num_str (c_capacity c) +:+ ").").
Proof.
  intros Hok. destruct (enroll_success_inv _ _ _ Hok)
    as (s0 & rs & c0 & rc & Hst & Hco & Hfree & Hpair & ->).
  set (db1 := Sql.update_enrolled_count _ _ _). cbv zeta.
  assert (Sql.students_by_id db1 (a_student_id args) = s0 :: rs) as Hst1 by done.
  assert (Sql.courses_by_id db1 (a_course_id args)
          = Sql.bump (a_course_id args) 1 c0 :: (Sql.bump (a_course_id args) 1 <$> rc))
    as Hco1.
  { unfold Sql.courses_by_id, db1. simpl. rewrite courses_by_id_bump.
    unfold Sql.courses_by_id in Hco. by rewrite Hco. }
  assert (∃ e, Sql.enrollments_of_pair db1 (a_student_id args) (a_course_id args) = [e])
    as [e Hpair1].
  { eexists. unfold Sql.enrollments_of_pair, db1. simpl. rewrite filter_app.
    unfold Sql.enrollments_of_pair in Hpair. rewrite Hpair.
    rewrite filter_cons_True by done. done. }
  assert ((enrollStudent now2 db1 args).2 = db1) as Hsame.
  { unfold enrollStudent. rewrite Hst1, Hco1, Hpair1. by case_decide. }
  split; [done|]. split; [by rewrite Hsame, Hpair1|].
  eexists _, _. split; [exact Hco1|].
  unfold enrollStudent. rewrite Hst1, Hco1, Hpair1.
  split; intros H; [by rewrite decide_False by lia | by rewrite decide_True by done].
Qed.

(** ** Registering *)

Lemma insert_student_inv db s db1 :
  Sql.insert_student db s = Some db1 →
  Sql.student_accepted db s
  ∧ db1 = mkTables (students db ++ [s]) (courses db) (enrollments db)
                   (chat_history db) (enrollmentIdCounter db).
Proof. unfold Sql.insert_student. case_decide; naive_solver. Qed.

Lemma insert_student_accepted db s :
  Sql.student_accepted db s →
  Sql.insert_student db s =
    Some (mkTables (students db ++ [s]) (courses db) (enrollments db)
                   (chat_history db) (enrollmentIdCounter db)).
Proof. intros H. unfold Sql.insert_student. by rewrite decide_True. Qed.

Lemma insert_student_refused db s :
  ¬ Sql.student_accepted db s → Sql.insert_student db s = None.
Proof. intros H. unfold Sql.insert_student. by rewrite decide_False. Qed.

Lemma register_known rnd now db args s r :
  Sql.students_by_email db (a_email args) = s :: r →
  registerStudent rnd now db args =
    (Returned ("Student already registered with email " +:+ js_str (a_email args)
                 +:+ ". Student ID: " +:+ s_id s), db).
Proof. intros E. unfold registerStudent. by rewrite E. Qed.

Lemma register_fresh rnd now db args db1 :
  Sql.students_by_email db (a_email args) = [] →
  Sql.insert_student db (mkStudent ("STU-" +:+ rnd) (a_name args) (a_email args) now)
    = Some db1 →
  registerStudent rnd now db args =
    (Returned ("Student registered successfully. Student ID: " +:+ ("STU-" +:+ rnd)
                 +:+ ", Name: " +:+ js_str (a_name args) +:+ ", Email: "
                 +:+ js_str (a_email args)), db1).
Proof. intros E E1. unfold registerStudent. by rewrite E, E1. Qed.

Lemma register_refused rnd now db args :
  Sql.students_by_email db (a_email args) = [] →
  Sql.insert_student db (mkStudent ("STU-" +:+ rnd) (a_name args) (a_email args) now)
    = None →
  registerStudent rnd now db args = (Threw, db).
Proof. intros E E1. unfold registerStudent. by rewrite E, E1. Qed.

(** The three ways a call of [registerStudent] ends. *)
Lemma register_cases rnd now db args :
  (∃ s r, Sql.students_by_email db (a_email args) = s :: r
          ∧ registerStudent rnd now db args =
              (Returned ("Student already registered with email "
                           +:+ js_str (a_email args) +:+ ". Student ID: " +:+ s_id s), db))
  ∨ (Sql.students_by_email db (a_email args) = []
     ∧ Sql.student_accepted db
         (mkStudent ("STU-" +:+ rnd) (a_name args) (a_email args) now)
     ∧ registerStudent rnd now db args =
         (Returned ("Student registered successfully. Student ID: " +:+ ("STU-" +:+ rnd)
                      +:+ ", Name: " +:+ js_str (a_name args) +:+ ", Email: "
                      +:+ js_str (a_email args)),
          mkTables (students db
                      ++ [mkStudent ("STU-" +:+ rnd) (a_name args) (a_email args) now])
                   (courses db) (enrollments db) (chat_history db)
                   (enrollmentIdCounter db)))
  ∨ (Sql.students_by_email db (a_email args) = []
     ∧ ¬ Sql.student_accepted db
           (mkStudent ("STU-" +:+ rnd) (a_name args) (a_email args) now)
     ∧ registerStudent rnd now db args = (Threw, db)).
Proof.
  destruct (Sql.students_by_email db (a_email args)) as [|s r] eqn:E.
  - right.
    destruct (decide (Sql.student_accepted db
                (mkStudent ("STU-" +:+ rnd) (a_name args) (a_email args) now)))
      as [Hacc|Hacc]; [left|right]; (split; [done|]); (split; [done|]).
    + apply register_fresh; [done | by apply insert_student_accepted].
    + apply register_refused; [done | by apply insert_student_refused].
  - left. exists s, r. split; [done | by apply (register_known _ _ _ _ s r)].
Qed.

(** [registerStudent] leaves every table but [students] alone. *)
Lemma register_other_tables rnd now db args :
  courses (registerStudent rnd now db args).2 = courses db
  ∧ enrollments (registerStudent rnd now db args).2 = enrollments db
  ∧ chat_history (registerStudent rnd now db args).2 = chat_history db
  ∧ enrollmentIdCounter (registerStudent rnd now db args).2 = enrollmentIdCounter db.
Proof.
  destruct (register_cases rnd now db args)
    as [(? & ? & _ & ->)|[(_ & _ & ->)|(_ & _ & ->)]]; done.
Qed.


(** ** The derived count *)

Lemma filter_split_length {A} (P Q : A → Prop)
    `{!∀ x, Decision (P x), !∀ x, Decision (Q x)} (l : list A) :
  length (filter P (filter (λ x, ¬ Q x) l)) + length (filter (λ x, P x ∧ Q x) l)
  = length (filter P l).
Proof.
  induction l as [|x l IH]; [done|].
  rewrite !filter_cons.
  destruct (decide (Q x)), (decide (P x)).
  - rewrite decide_False, decide_True by tauto. simpl. lia.
  - rewrite decide_False, decide_False by tauto. done.
  - rewrite decide_True, decide_False by tauto. rewrite filter_cons_True by done.
    simpl. lia.
  - rewrite decide_True, decide_False by tauto. rewrite filter_cons_False by done.
    done.
Qed.

(** Every operation has one of the three effects. *)
Lemma perform_effect db op : effect db op (perform db op).2.
Proof.
  destruct op as [rnd now args| |now args|args|sid]; simpl.
  - by apply effect_none; apply register_other_tables.
  - apply effect_none; unfold listCourses; by destruct (Sql.courses_ordered db).
  - unfold enrollStudent.
    destruct (Sql.students_by_id db _); [by apply effect_none|].
    destruct (Sql.courses_by_id db _); [by apply effect_none|].
    case_decide; [by apply effect_none|].
    destruct (Sql.enrollments_of_pair db _ _) eqn:E; [|by apply effect_none].
    by apply effect_enroll.
  - unfold dropCourse.
    destruct (Sql.enrollments_of_pair db _ _) eqn:E; [by apply effect_none|].
    apply effect_drop; [by rewrite E|done..].
  - apply effect_none; unfold checkEnrollment;
      destruct (Sql.students_by_id db _); [done| |done|];
      by destruct (Sql.enrollments_joined db _).
Qed.

Lemma effect_pair_unique db op db' :
  effect db op db' → Schema.pair_unique db → Schema.pair_unique db'.
Proof.
  unfold Schema.pair_unique, Sql.enrollments_of_pair.
  intros [op' db1 _ He | now args db1 Hnone He _ | args db1 _ He _] Hu sid cid;
    rewrite He.
  - apply Hu.
  - rewrite filter_app, length_app, filter_cons, filter_nil.
    case_decide as Hp; simpl; [|pose proof (Hu sid cid); lia].
    destruct Hp as [<- <-]. simpl in *.
    unfold Sql.enrollments_of_pair in Hnone. by rewrite Hnone.
  - pose proof (filter_split_length (Sql.is_pair sid cid)
      (Sql.is_pair (a_student_id args) (a_course_id args)) (enrollments db)).
    pose proof (Hu sid cid). lia.
Qed.

Lemma effect_counts db op db' :
  effect db op db' → Schema.pair_unique db → Schema.counts_consistent db →
  Schema.counts_consistent db'.
Proof.
  unfold Schema.counts_consistent, Schema.rows_of_course.
  intros [op' db1 Hc He | now args db1 Hnone He Hc | args db1 Hsome He Hc] Hu Hinv c';
    rewrite He, Hc.
  - apply Hinv.
  - intros (c & -> & Hin)%list_elem_of_fmap. rewrite bump_id.
    rewrite filter_app, length_app, filter_cons, filter_nil. simpl.
    specialize (Hinv c Hin). unfold Sql.bump.
    destruct (decide (Some (c_id c) = a_course_id args)) as [E|E]; simpl.
    + rewrite decide_True by done. simpl. lia.
    + rewrite decide_False by congruence. simpl. lia.
  - intros (c & -> & Hin)%list_elem_of_fmap. rewrite bump_id.
    specialize (Hinv c Hin).
    pose proof (filter_split_length (λ e, e_course_id e = Some (c_id c))
      (Sql.is_pair (a_student_id args) (a_course_id args)) (enrollments db)) as Hsplit.
    unfold Sql.bump.
    destruct (decide (Some (c_id c) = a_course_id args)) as [E|E]; simpl.
    + rewrite (list_filter_iff
                 (λ e, e_course_id e = Some (c_id c)
                       ∧ Sql.is_pair (a_student_id args) (a_course_id args) e)
                 (Sql.is_pair (a_student_id args) (a_course_id args)))
        in Hsplit
        by (intros e; unfold Sql.is_pair; simpl;
            split; [by intros [_ ?] | intros [? ?]; split_and!; congruence]).
      pose proof (Hu (a_student_id args) (a_course_id args)) as Hle.
      unfold Sql.enrollments_of_pair in Hle, Hsome.
      destruct (filter (Sql.is_pair _ _) (enrollments db)) as [|? [|? ?]];
        [done | simpl in * | simpl in *]; lia.
    + rewrite (filter_none (λ e, _ ∧ _)) in Hsplit
        by (unfold Sql.is_pair; intros e _ [He1 [_ He2]]; congruence).
      simpl in Hsplit. lia.
Qed.

Lemma perform_all_invariant db ops :
  Schema.pair_unique db → Schema.counts_consistent db →
  Schema.pair_unique (perform_all db ops) ∧ Schema.counts_consistent (perform_all db ops).
Proof.
  revert db. induction ops as [|op ops IH]; intros db Hu Hc; [done|].
  simpl. pose proof (perform_effect db op) as Heff.
  apply IH; [by eapply effect_pair_unique | by eapply effect_counts].
Qed.

(** A store without enrollments whose counts are all 0, such as the seeded
    one, has both properties, and so has every store the tools make of it. *)
Lemma seeded_store_invariant db ops :
  enrollments db = [] → (∀ c, c ∈ courses db → c_enrolled_count c = 0%Z) →
  Schema.pair_unique (perform_all db ops) ∧ Schema.counts_consistent (perform_all db ops).
Proof.
  intros Hnone Hzero. apply perform_all_invariant.
  - intros sid cid. unfold Sql.enrollments_of_pair. rewrite Hnone. simpl. lia.
  - intros c Hc. unfold Schema.rows_of_course. rewrite Hnone. simpl. by apply Hzero.
Qed.

(** C1: starting from a store where every course's [enrolled_count] equals
    the number of its Enrollment rows (and where, as the schema has it, a
    pair has at most one row), the same holds after any sequence of
    operations.  A step either leaves [courses] and [enrollments] alone, or
    is an enrollment that adds one row and one to the count together, or a
    drop that removes the pair's row and takes one from the count
    together. *)
Theorem enrolled_count_matches_rows db ops :
  Schema.pair_unique db → Schema.counts_consistent db →
  Schema.counts_consistent (perform_all db ops)
  ∧ ∀ db0 op, effect db0 op (perform db0 op).2.
Proof.
  intros Hu Hc. split; [by apply perform_all_invariant | apply perform_effect].
Qed.

(** ** The tool-calling loop *)

Section Orchestrator_properties.

Context (AI_run : nat → list Message → AIResponse)
        (JSON_stringify : gmap string string → string)
        (random_suffix now_iso : nat → string).

Local Abbreviation dispatch' := (dispatch random_suffix now_iso).
Local Abbreviation dispatch_all' := (dispatch_all random_suffix now_iso).
Local Abbreviation rounds' := (rounds AI_run JSON_stringify random_suffix now_iso).
Local Abbreviation callLLM' := (callLLM AI_run JSON_stringify random_suffix now_iso).
Local Abbreviation execute' := (λ n, executeTool (random_suffix n) (now_iso n)).

Lemma dispatch_unfold st tc :
  dispatch' st tc =
    match (execute' (draws st) (sql st) (tc_name tc) (tc_arguments tc)).1 with
    | Returned result =>
        (Returned (),
         mkAgent (messages st ++ [result_turn tc result])
                 (execute' (draws st) (sql st) (tc_name tc) (tc_arguments tc)).2
                 (ai_calls st) (S (draws st)))
    | Threw =>
        (Threw,
         mkAgent (messages st)
                 (execute' (draws st) (sql st) (tc_name tc) (tc_arguments tc)).2
                 (ai_calls st) (S (draws st)))
    end.
Proof. unfold dispatch. by destruct (executeTool _ _ _ _ _) as [[?|] ?]. Qed.

Lemma dispatch_all_cons st tc tcs :
  dispatch_all' st (tc :: tcs) =
    match dispatch' st tc with
    | (Returned _, st1) => dispatch_all' st1 tcs
    | (Threw, st1) => (Threw, st1)
    end.
Proof. done. Qed.

Lemma dispatch_all_ai_calls tcs st :
  ai_calls (dispatch_all' st tcs).2 = ai_calls st.
Proof.
  revert st. induction tcs as [|tc tcs IH]; intros st; [done|].
  rewrite dispatch_all_cons, dispatch_unfold.
  destruct (executeTool _ _ _ _ _).1; [by rewrite IH | done].
Qed.

(** A tool other than [register_student] returns. *)
Lemma executeTool_returns rnd now db name args :
  name ≠ "register_student" → (executeTool rnd now db name args).1 ≠ Threw.
Proof.
  intros Hname. unfold executeTool.
  destruct (String.eqb_spec name "register_student"); [done|].
  by repeat destruct (String.eqb name _).
Qed.

(** A tool that throws leaves the store as it was. *)
Lemma executeTool_threw rnd now db name args db1 :
  executeTool rnd now db name args = (Threw, db1) → db1 = db.
Proof.
  unfold executeTool.
  destruct (String.eqb name "register_student").
  { destruct (register_cases rnd now db
                (mkRegisterArgs (args !! "name") (args !! "email")))
      as [(? & ? & _ & ->)|[(_ & _ & ->)|(_ & _ & ->)]]; by intros [= <-]. }
  by repeat destruct (String.eqb name _).
Qed.

Lemma dispatch_all_no_registration tcs st :
  Forall (λ tc, tc_name tc ≠ "register_student") tcs →
  (dispatch_all' st tcs).1 ≠ Threw.
Proof.
  revert st. induction tcs as [|tc tcs IH]; intros st Hall; [done|].
  apply Forall_cons in Hall as [Htc Hall].
  rewrite dispatch_all_cons, dispatch_unfold.
  pose proof (executeTool_returns (random_suffix (draws st)) (now_iso (draws st))
                (sql st) (tc_name tc) (tc_arguments tc) Htc) as Hret.
  destruct (executeTool _ _ _ _ _).1; [by apply IH | done].
Qed.

(** What the calls of a round did: the calls before the first one that
    throws returned their results, each on the store the one before it
    left; the call after them, if there is one, threw. *)
Lemma dispatch_all_trace tcs st :
  ∃ (results : list string) (stores : nat → Tables),
    length results ≤ length tcs
    ∧ stores 0 = sql st
    ∧ (∀ i tc result, tcs !! i = Some tc → results !! i = Some result →
         execute' (draws st + i) (stores i) (tc_name tc) (tc_arguments tc)
         = (Returned result, stores (S i)))
    ∧ (length results = length tcs →
         dispatch_all' st tcs =
           (Returned (),
            mkAgent (messages st ++ zip_with result_turn tcs results)
                    (stores (length results)) (ai_calls st)
                    (draws st + length results)))
    ∧ (length results < length tcs →
         dispatch_all' st tcs =
           (Threw,
            mkAgent (messages st ++ zip_with result_turn tcs results)
                    (stores (length results)) (ai_calls st)
                    (S (draws st + length results)))
         ∧ ∃ tc, tcs !! length results = Some tc
                 ∧ execute' (draws st + length results) (stores (length results))
                            (tc_name tc) (tc_arguments tc)
                   = (Threw, stores (length results))).
Proof.
  revert st. induction tcs as [|tc tcs IH]; intros st.
  { exists [], (λ _, sql st). simpl. split_and!; try done; try lia.
    intros _. destruct st. simpl. by rewrite app_nil_r, Nat.add_0_r. }
  rewrite dispatch_all_cons, dispatch_unfold.
  destruct (executeTool (random_suffix (draws st)) (now_iso (draws st)) (sql st)
              (tc_name tc) (tc_arguments tc))
    as [[result|] db1] eqn:E; simpl.
  - destruct (IH (mkAgent (messages st ++ [result_turn tc result]) db1
                          (ai_calls st) (S (draws st))))
      as (results & stores & Hlen & H0 & Hstep & Hall & Hthrew).
    simpl in *.
    exists (result :: results), (λ i, match i with O => sql st | S j => stores j end).
    split_and!.
    + simpl. lia.
    + done.
    + intros [|i] tc' result' Htc Hres; simpl in *.
      * injection Htc as <-. injection Hres as <-.
        rewrite Nat.add_0_r, E. by rewrite H0.
      * replace (draws st + S i) with (S (draws st + i)) by lia.
        by apply Hstep.
    + simpl. intros Hl. rewrite Hall by lia. rewrite <-app_assoc. simpl.
      by replace (draws st + S (length results)) with (S (draws st + length results))
        by lia.
    + simpl. intros Hl. destruct Hthrew as (Ht & tc' & Htc & Hex); [lia|].
      replace (draws st + S (length results)) with (S (draws st + length results))
        by lia.
      split; [|by exists tc']. rewrite Ht. rewrite <-app_assoc. done.
  - apply executeTool_threw in E as Hsame. subst db1.
    exists [], (λ _, sql st). simpl. split_and!.
    + lia.
    + done.
    + intros i tc' result' _ Hres. done.
    + lia.
    + intros _. rewrite app_nil_r, !Nat.add_0_r. split; [done|].
      exists tc. by split.
Qed.

Lemma dispatch_all_prefix tcs st :
  messages st `prefix_of` messages (dispatch_all' st tcs).2.
Proof.
  destruct (dispatch_all_trace tcs st)
    as (results & stores & Hlen & _ & _ & Hall & Hthrew).
  destruct (decide (length results = length tcs)) as [Hl|Hl].
  - rewrite (Hall Hl). by apply prefix_app_r.
  - destruct Hthrew as [-> _]; [lia|]. by apply prefix_app_r.
Qed.

Lemma rounds_tools left st tc tcs :
  tool_calls (AI_run (length (ai_calls st)) (messages st)) = Some (tc :: tcs) →
  rounds' (S left) st =
    match dispatch_all'
            (push_summary JSON_stringify
               (received st (AI_run (length (ai_calls st)) (messages st))) (tc :: tcs))
            (tc :: tcs) with
    | (Returned _, st2) => rounds' left st2
    | (Threw, st2) => (Threw, st2)
    end.
Proof. intros E. cbn [rounds]. by rewrite E. Qed.

Lemma rounds_no_tools left st :
  requests_tools (AI_run (length (ai_calls st)) (messages st)) = false →
  ∃ reply,
    rounds' (S left) st =
      (Returned reply, received st (AI_run (length (ai_calls st)) (messages st)))
    ∧ (has_text (AI_run (length (ai_calls st)) (messages st)) = false →
       reply = FALLBACK_UNPROCESSED).
Proof.
  unfold requests_tools, has_text. cbn [rounds].
  destruct (tool_calls _) as [[|tc tcs]|]; [|done|]; intros _;
    (destruct (response _) as [text|]; [destruct (String.eqb text "")|]);
    eexists; (split; [done|]); done.
Qed.

(** The responses a run of the loop received. *)
Lemma rounds_trace left st :
  ∃ seen,
    ai_calls (rounds' left st).2 = ai_calls st ++ seen
    ∧ length seen ≤ left
    ∧ ((rounds' left st).1 = Threw →
       seen ≠ [] ∧ Forall (λ r, requests_tools r = true) seen)
    ∧ (Forall (λ r, requests_tools r = true) seen → (rounds' left st).1 ≠ Threw →
       length seen = left ∧ (rounds' left st).1 = Returned FALLBACK_EXHAUSTED)
    ∧ (Forall no_registration seen → (rounds' left st).1 ≠ Threw).
Proof.
  revert st. induction left as [|left IH]; intros st.
  { exists []. simpl. rewrite app_nil_r. split_and!; done. }
  set (r := AI_run (length (ai_calls st)) (messages st)).
  destruct (requests_tools r) eqn:Hreq.
  - pose proof Hreq as Hreq'. unfold requests_tools in Hreq.
    destruct (tool_calls r) as [[|tc tcs]|] eqn:E; [done| |done].
    rewrite (rounds_tools _ _ _ _ E). fold r.
    pose proof (dispatch_all_ai_calls (tc :: tcs)
                  (push_summary JSON_stringify (received st r) (tc :: tcs))) as Hai.
    pose proof (dispatch_all_no_registration (tc :: tcs)
                  (push_summary JSON_stringify (received st r) (tc :: tcs))) as Hno.
    destruct (dispatch_all' _ (tc :: tcs)) as [[u|] st2]; simpl in Hai, Hno.
    + destruct (IH st2) as (seen & Hcalls & Hlen & Hthrew & Hall & Hreg).
      exists (r :: seen). split_and!.
      * rewrite Hcalls, Hai. simpl. by rewrite <-app_assoc.
      * simpl. lia.
      * intros Ht. destruct (Hthrew Ht) as [_ Hseen].
        split; [done | by apply Forall_cons].
      * intros [_ Hseen]%Forall_cons Hret. destruct (Hall Hseen Hret) as [Hl Hr].
        split; [simpl; lia | exact Hr].
      * intros [_ Hseen]%Forall_cons. by apply Hreg.
    + exists [r]. simpl. split_and!.
      * by rewrite Hai.
      * lia.
      * intros _. split; [done|]. by apply Forall_singleton.
      * done.
      * intros [Hr _]%Forall_cons. by destruct (Hno (Hr _ E)).
  - destruct (rounds_no_tools left st Hreq) as (reply & -> & _). fold r.
    exists [r]. split; [done|]. split; [simpl; lia|]. split_and!.
    + done.
    + intros [Hr _]%Forall_cons. congruence.
    + done.
Qed.

(** The first response a run with a round to go received. *)
Lemma rounds_first_call left st :
  ∃ rest,
    ai_calls (rounds' (S left) st).2 =
      ai_calls st ++ AI_run (length (ai_calls st)) (messages st) :: rest.
Proof.
  set (r := AI_run (length (ai_calls st)) (messages st)).
  destruct (requests_tools r) eqn:Hreq.
  - unfold requests_tools in Hreq.
    destruct (tool_calls r) as [[|tc tcs]|] eqn:E; [done| |done].
    rewrite (rounds_tools _ _ _ _ E). fold r.
    pose proof (dispatch_all_ai_calls (tc :: tcs)
                  (push_summary JSON_stringify (received st r) (tc :: tcs))) as Hai.
    destruct (dispatch_all' _ (tc :: tcs)) as [[u|] st2]; simpl in Hai.
    + destruct (rounds_trace left st2) as (seen & -> & _). exists seen.
      rewrite Hai. by rewrite <-app_assoc.
    + exists []. simpl. by rewrite Hai.
  - destruct (rounds_no_tools left st Hreq) as (reply & -> & _). by exists [].
Qed.

(** C2 (as the code has it): [callLLM] invokes the model at most 5 times,
    whatever it answers.  When every answer it received requests tool calls
    and no tool call throws, it has invoked the model exactly 5 times and
    returns the static fallback string; when a tool call throws, the loop
    ends there without a reply, after an answer that requests tool calls.
    No tool call throws when no answer asks for [register_student]. *)
Theorem callLLM_at_most_five_invocations st :
  ∃ seen,
    ai_calls (callLLM' st).2 = ai_calls st ++ seen
    ∧ length seen ≤ 5
    ∧ ((callLLM' st).1 = Threw →
       seen ≠ [] ∧ Forall (λ r, requests_tools r = true) seen)
    ∧ (Forall (λ r, requests_tools r = true) seen → (callLLM' st).1 ≠ Threw →
       length seen = 5
       ∧ (callLLM' st).1 =
           Returned "I completed the requested operations. Is there anything else I can help you with?")
    ∧ (Forall no_registration seen → (callLLM' st).1 ≠ Threw).
Proof. apply rounds_trace. Qed.

(** C8: when, in a round, the model's response has neither a text answer
    nor tool calls, the loop ends in that round with the static apology:
    the model has been invoked once more, nothing else has changed. *)
Theorem rounds_malformed_response left st :
  let r := AI_run (length (ai_calls st)) (messages st) in
  requests_tools r = false → has_text r = false →
  rounds' (S left) st =
    (Returned "I'm sorry, I couldn't process that request. Could you rephrase?",
     mkAgent (messages st) (sql st) (ai_calls st ++ [r]) (draws st)).
Proof.
  intros r Htools Htext.
  destruct (rounds_no_tools left st Htools) as (reply & -> & Hreply).
  by rewrite (Hreply Htext).
Qed.

(** C3 (as the code has it): a round whose response lists tool calls first
    pushes one assistant turn summarising them all, one line
    ["[Calling <name>(<arguments>)]"] per call; then it runs the calls
    through [executeTool] in the order of the list, each on the store the
    previous one left, and pushes one result turn per call that returned,
    in the same order, tagged with the name of the tool.  No result string
    stops the round.  When every call returned, the next round starts from
    the state so reached, which is the final state when the budget is used
    up, and the model is invoked next on the turns of that state.  When a
    call throws, the loop ends there: the calls after it are not made. *)
Theorem round_executes_all_calls left st tcs :
  tool_calls (AI_run (length (ai_calls st)) (messages st)) = Some tcs →
  tcs ≠ [] →
  ∃ (results : list string) (stores : nat → Tables),
    length results ≤ length tcs
    ∧ stores 0 = sql st
    ∧ (∀ i tc result, tcs !! i = Some tc → results !! i = Some result →
         executeTool (random_suffix (draws st + i)) (now_iso (draws st + i))
                     (stores i) (tc_name tc) (tc_arguments tc)
         = (Returned result, stores (S i)))
    ∧ let turns :=
        messages st
        ++ mkMessage "assistant"
             (String.concat (String (Ascii.ascii_of_nat 10) "")
                ((λ tc, "[Calling " +:+ tc_name tc +:+ "("
                          +:+ JSON_stringify (tc_arguments tc) +:+ ")]") <$> tcs))
        :: zip_with (λ tc result,
               mkMessage "user" ("Tool result for " +:+ tc_name tc +:+ ": " +:+ result))
             tcs results in
      let answers := ai_calls st ++ [AI_run (length (ai_calls st)) (messages st)] in
      (length results = length tcs →
         let st' := mkAgent turns (stores (length tcs)) answers
                            (draws st + length tcs) in
         rounds' (S left) st = rounds' left st'
         ∧ rounds' 1 st =
             (Returned "I completed the requested operations. Is there anything else I can help you with?",
              st')
         ∧ ∃ rest,
             ai_calls (rounds' (S (S left)) st).2 =
               answers ++ AI_run (length answers) turns :: rest)
      ∧ (length results < length tcs →
         rounds' (S left) st =
           (Threw, mkAgent turns (stores (length results)) answers
                           (S (draws st + length results)))
         ∧ ∃ tc, tcs !! length results = Some tc
                 ∧ executeTool (random_suffix (draws st + length results))
                               (now_iso (draws st + length results))
                               (stores (length results)) (tc_name tc) (tc_arguments tc)
                   = (Threw, stores (length results))).
Proof.
  intros Hcalls Hne.
  set (r := AI_run (length (ai_calls st)) (messages st)) in *.
  set (st0 := push_summary JSON_stringify (received st r) tcs).
  destruct (dispatch_all_trace tcs st0)
    as (results & stores & Hlen & H0 & Hstep & Hall & Hthrew).
  assert (∀ k, rounds' (S k) st =
               match dispatch_all' st0 tcs with
               | (Returned _, st2) => rounds' k st2
               | (Threw, st2) => (Threw, st2)
               end) as Hround.
  { intros k. destruct tcs as [|tc tcs]; [done|]. by apply rounds_tools. }
  exists results, stores.
  split_and!; [done|done|exact Hstep|]. cbv zeta. split.
  - intros Hl. specialize (Hall Hl).
    assert (∀ k, rounds' (S k) st =
                 rounds' k (mkAgent
                   (messages st
                    ++ mkMessage "assistant" (toolCallSummary JSON_stringify tcs)
                    :: zip_with result_turn tcs results)
                   (stores (length tcs)) (ai_calls st ++ [r])
                   (draws st + length tcs))) as Hnext.
    { intros k. rewrite Hround, Hall. unfold st0. simpl.
      by rewrite <-app_assoc, Hl. }
    split_and!; [apply Hnext | by rewrite Hnext|].
    rewrite Hnext.
    destruct (rounds_first_call left (mkAgent
                   (messages st
                    ++ mkMessage "assistant" (toolCallSummary JSON_stringify tcs)
                    :: zip_with result_turn tcs results)
                   (stores (length tcs)) (ai_calls st ++ [r])
                   (draws st + length tcs))) as [rest Hrest].
    exists rest. exact Hrest.
  - intros Hl. destruct (Hthrew Hl) as (Ht & tc & Htc & Hex).
    split; [|by exists tc].
    rewrite Hround, Ht. unfold st0. simpl. by rewrite <-app_assoc.
Qed.

End Orchestrator_properties.

(** ** The properties on the sample data *)

Lemma sample_course_pk : Schema.course_pk Sample.db_taken.
Proof.
  intros c1 c2 H1 H2 E. simpl in H1, H2.
  apply elem_of_cons in H1 as [->|H1]; apply elem_of_cons in H2 as [->|H2];
    try apply list_elem_of_singleton in H1 as ->;
    try apply list_elem_of_singleton in H2 as ->;
    first [reflexivity | discriminate E].
Defined.

Lemma sample_pair_unique : Schema.pair_unique Sample.db_taken.
Proof.
  intros sid cid. unfold Sql.enrollments_of_pair.
  etransitivity; [apply length_filter | simpl; lia].
Defined.

Lemma sample_counts_consistent : Schema.counts_consistent Sample.db_taken.
Proof.
  intros c Hc. simpl in Hc.
  apply elem_of_cons in Hc as [->|Hc]; [|apply list_elem_of_singleton in Hc as ->];
    vm_compute; reflexivity.
Defined.

Lemma enrolled_count_matches_rows_witness :
  Schema.pair_unique Sample.db_taken
  ∧ Schema.counts_consistent Sample.db_taken
  ∧ Schema.counts_consistent (perform_all Sample.db_taken Sample.some_ops).
Proof.
  split; [exact sample_pair_unique|]. split; [exact sample_counts_consistent|].
  apply (enrolled_count_matches_rows Sample.db_taken Sample.some_ops);
    [exact sample_pair_unique | exact sample_counts_consistent].
Defined.

Lemma callLLM_at_most_five_invocations_witness :
  (callLLM Sample.ai_insatiable Sample.stringify Sample.suffix Sample.clock
           Sample.agent0).1
  = Returned "I completed the requested operations. Is there anything else I can help you with?".
Proof.
  destruct (callLLM_at_most_five_invocations Sample.ai_insatiable Sample.stringify
              Sample.suffix Sample.clock Sample.agent0)
    as (seen & Hcalls & _ & _ & Hall & Hreg).
  vm_compute in Hcalls. subst seen.
  apply Hall.
  - repeat constructor.
  - apply Hreg. repeat constructor; intros tcs [= <-]; repeat constructor; discriminate.
Defined.

(** C2 as the specification states it fails when a tool call throws: the
    model below requests tool calls in every answer, the first of them a
    registration that names nobody; the INSERT is refused, and the loop ends
    after one invocation without the fallback string. *)
Lemma callLLM_throwing_tool_call :
  let run := callLLM Sample.ai_careless Sample.stringify Sample.suffix Sample.clock
                     Sample.agent0 in
  Forall (λ r, requests_tools r = true) (ai_calls run.2)
  ∧ length (ai_calls run.2) = 1
  ∧ run.1 = Threw.
Proof. vm_compute. split; [by repeat constructor | done]. Qed.

Lemma round_executes_all_calls_witness :
  ∃ (results : list string) (stores : nat → Tables),
    length results ≤ length Sample.two_calls
    ∧ stores 0 = Sample.db_open
    ∧ (∀ i tc result, Sample.two_calls !! i = Some tc → results !! i = Some result →
         executeTool (Sample.suffix (0 + i)) (Sample.clock (0 + i))
                     (stores i) (tc_name tc) (tc_arguments tc)
         = (Returned result, stores (S i)))
    ∧ let turns :=
        messages Sample.agent0
        ++ mkMessage "assistant"
             (String.concat (String (Ascii.ascii_of_nat 10) "")
                ((λ tc, "[Calling " +:+ tc_name tc +:+ "("
                          +:+ Sample.stringify (tc_arguments tc) +:+ ")]")
                   <$> Sample.two_calls))
        :: zip_with (λ tc result,
               mkMessage "user" ("Tool result for " +:+ tc_name tc +:+ ": " +:+ result))
             Sample.two_calls results in
      let answers := [] ++ [Sample.ai_two_calls 0 (messages Sample.agent0)] in
      (length results = length Sample.two_calls →
         let st' := mkAgent turns (stores (length Sample.two_calls)) answers
                            (0 + length Sample.two_calls) in
         callLLM Sample.ai_two_calls Sample.stringify Sample.suffix Sample.clock
                 Sample.agent0
         = rounds Sample.ai_two_calls Sample.stringify Sample.suffix Sample.clock 4 st'
         ∧ rounds Sample.ai_two_calls Sample.stringify Sample.suffix Sample.clock 1
                  Sample.agent0
           = (Returned "I completed the requested operations. Is there anything else I can help you with?",
              st')
         ∧ ∃ rest,
             ai_calls (rounds Sample.ai_two_calls Sample.stringify Sample.suffix
                              Sample.clock 6 Sample.agent0).2 =
               answers ++ Sample.ai_two_calls (length answers) turns :: rest)
      ∧ (length results < length Sample.two_calls →
         callLLM Sample.ai_two_calls Sample.stringify Sample.suffix Sample.clock
                 Sample.agent0
         = (Threw, mkAgent turns (stores (length results)) answers
                           (S (0 + length results)))
         ∧ ∃ tc, Sample.two_calls !! length results = Some tc
                 ∧ executeTool (Sample.suffix (0 + length results))
                               (Sample.clock (0 + length results))
                               (stores (length results)) (tc_name tc) (tc_arguments tc)
                   = (Threw, stores (length results))).
Proof.
  apply (round_executes_all_calls Sample.ai_two_calls Sample.stringify Sample.suffix
           Sample.clock 4 Sample.agent0 Sample.two_calls);
    [reflexivity | discriminate].
Defined.

(** C3 as the specification states it fails when a call throws: of the two
    calls requested below the first is a registration that names nobody;
    the INSERT is refused, the round is over with only the summary turn
    pushed, and the second call is never made. *)
Lemma round_aborted_by_throwing_call :
  tool_calls (Sample.ai_careless 0 (messages Sample.agent0)) = Some Sample.bad_calls
  ∧ (executeTool (Sample.suffix 0) (Sample.clock 0) Sample.db_open
                 "register_student" ∅).1 = Threw
  ∧ callLLM Sample.ai_careless Sample.stringify Sample.suffix Sample.clock Sample.agent0
    = (Threw,
       mkAgent (messages Sample.agent0
                ++ [mkMessage "assistant"
                      (toolCallSummary Sample.stringify Sample.bad_calls)])
               Sample.db_open [mkAIResponse None (Some Sample.bad_calls)] 1).
Proof. split; [done|]. split; vm_compute; reflexivity. Qed.

Lemma enrollStudent_full_witness :
  enrollStudent Sample.stamp Sample.db_taken Sample.alice_cs101
  = ("Error: Course CS101 (Introduction to Computer Science) is full (1/1).",
     Sample.db_taken).
Proof.
  apply (enrollStudent_full Sample.stamp Sample.db_taken Sample.alice_cs101
           Sample.alice (Sample.cs101 1));
    [apply sample_course_pk | by left | reflexivity | by left | reflexivity | reflexivity].
Defined.

Lemma enrollStudent_twice_witness :
  enrolled_ok (enrollStudent Sample.stamp Sample.db_taken Sample.alice_math201).1 = true
  ∧ let db1 := (enrollStudent Sample.stamp Sample.db_taken Sample.alice_math201).2 in
    enrollStudent Sample.stamp db1 Sample.alice_math201
    = ("Student STU-A1B2C3 is already enrolled in MATH201.", db1).
Proof.
  split; [vm_compute; reflexivity|].
  destruct (enrollStudent_twice Sample.stamp Sample.stamp Sample.db_taken
              Sample.alice_math201) as (Hsame & _ & c & rest & Hc & Hfree & _);
    [vm_compute; reflexivity|].
  cbv zeta. apply injective_projections; [|exact Hsame].
  apply Hfree. vm_compute in Hc. injection Hc as <- _. vm_compute. reflexivity.
Defined.

(** C5 as the specification states it fails when the first enrollment takes
    the last seat: the second call then reports the course full, not the
    student already enrolled. *)
Lemma enrollStudent_twice_last_seat :
  enrolled_ok (enrollStudent Sample.stamp Sample.db_open Sample.alice_cs101).1 = true
  ∧ (enrollStudent Sample.stamp
       (enrollStudent Sample.stamp Sample.db_open Sample.alice_cs101).2
       Sample.alice_cs101).1
    = "Error: Course CS101 (Introduction to Computer Science) is full (1/1)."
  ∧ ¬ already_enrolled_outcome
        (enrollStudent Sample.stamp
           (enrollStudent Sample.stamp Sample.db_open Sample.alice_cs101).2
           Sample.alice_cs101).1.
Proof.
  split; [vm_compute; reflexivity|]. split; [vm_compute; reflexivity|].
  intros (sid & cid & E). vm_compute in E. discriminate E.
Qed.




Lemma dropCourse_not_enrolled_witness :
  dropCourse Sample.db_taken Sample.alice_math201
  = ("Student STU-A1B2C3 is not enrolled in MATH201.", Sample.db_taken).
Proof.
  apply (dropCourse_not_enrolled Sample.db_taken Sample.alice_math201).
  intros e He [_ Hcourse]. simpl in He.
  apply list_elem_of_singleton in He as ->. discriminate Hcourse.
Defined.

Lemma rounds_malformed_response_witness :
  callLLM Sample.ai_mute Sample.stringify Sample.suffix Sample.clock Sample.agent0
  = (Returned "I'm sorry, I couldn't process that request. Could you rephrase?",
     mkAgent (messages Sample.agent0) Sample.db_open [mkAIResponse None None] 0).
Proof.
  apply (rounds_malformed_response Sample.ai_mute Sample.stringify Sample.suffix
           Sample.clock 4 Sample.agent0); reflexivity.
Defined.

Lemma enrollStudent_check_order_witness :
  enrollStudent Sample.stamp Sample.db_taken Sample.alice_fake999
  = ("Error: Course FAKE999 not found.", Sample.db_taken)
  ∧ enrollStudent Sample.stamp Sample.db_taken (mkPairArgs (Some "UNKNOWN") (Some "CS101"))
    = ("Error: Student UNKNOWN not found. Please register first.", Sample.db_taken).
Proof.
  split.
  - apply (enrollStudent_check_order Sample.stamp Sample.db_taken Sample.alice_fake999)
      with (s := Sample.alice); [by left | reflexivity |].
    intros c Hc E. simpl in Hc.
    apply elem_of_cons in Hc as [->|Hc]; [|apply list_elem_of_singleton in Hc as ->];
      discriminate E.
  - apply (enrollStudent_check_order Sample.stamp Sample.db_taken
             (mkPairArgs (Some "UNKNOWN") (Some "CS101"))).
    intros s Hs E. simpl in Hs. apply list_elem_of_singleton in Hs as ->.
    discriminate E.
Defined.

Lemma executeTool_unknown_tool_witness :
  executeTool "EVE001" Sample.stamp Sample.db_taken "delete_everything" ∅
  = (Returned "Unknown tool: delete_everything", Sample.db_taken).
Proof.
  apply (executeTool_unknown_tool "EVE001" Sample.stamp Sample.db_taken
           "delete_everything" ∅).
  intros H. simpl in H.
  repeat (apply elem_of_cons in H as [H|H]; [discriminate H|]).
  by apply elem_of_nil in H.
Defined.

(** ** Two scenarios, evaluated *)

(** Enroll, enroll again, drop, check: MATH201 goes to 1, stays at 1, and
    returns to 0. *)
Example scenario_enroll_twice_then_drop :
  let r1 := enrollStudent Sample.stamp Sample.db_open Sample.alice_math201 in
  let r2 := enrollStudent Sample.stamp r1.2 Sample.alice_math201 in
  let r3 := dropCourse r2.2 Sample.alice_math201 in
  let r4 := checkEnrollment r3.2 (Some "STU-A1B2C3") in
  r1.1 = "Successfully enrolled student STU-A1B2C3 (Alice) in MATH201 (Linear Algebra)."
  ∧ c_enrolled_count <$> courses r1.2 = [0; 1]%Z
  ∧ r2.1 = "Student STU-A1B2C3 is already enrolled in MATH201."
  ∧ c_enrolled_count <$> courses r2.2 = [0; 1]%Z
  ∧ r3.1 = "Successfully dropped student STU-A1B2C3 from course MATH201."
  ∧ c_enrolled_count <$> courses r3.2 = [0; 0]%Z
  ∧ enrollments r3.2 = []
  ∧ r4.1 = "Student Alice (STU-A1B2C3) is not enrolled in any courses.".
Proof. vm_compute. repeat split. Qed.

(** A round asking for [list_courses] and [register_student] at once: both
    run, in that order, before the model is invoked again. *)
Example scenario_two_calls_in_one_round :
  let r := callLLM Sample.ai_two_calls Sample.stringify Sample.suffix Sample.clock
                   Sample.agent0 in
  r.1 = Returned "I've listed the courses and registered you."
  ∧ length (ai_calls r.2) = 2
  ∧ role <$> messages r.2 = ["system"; "user"; "assistant"; "user"; "user"]
  ∧ (String.prefix "Tool result for list_courses: " <$> (content <$> messages r.2))
    = [false; false; false; true; false]
  ∧ (String.prefix "Tool result for register_student: " <$> (content <$> messages r.2))
    = [false; false; false; false; true]
  ∧ s_id <$> students (sql r.2) = ["STU-A1B2C3"; "STU-EVE001"].
Proof. vm_compute. repeat split. Qed.

(** * Further properties *)

(** ** What one operation does to the store *)

Lemma perform_cases db op :
  (perform db op).2 = db
  ∨ (∃ rnd now args,
       op = OpRegister rnd now args
       ∧ Sql.students_by_email db (a_email args) = []
       ∧ Sql.student_accepted db
           (mkStudent ("STU-" +:+ rnd) (a_name args) (a_email args) now)
       ∧ (perform db op).2 =
           mkTables (students db
                       ++ [mkStudent ("STU-" +:+ rnd) (a_name args) (a_email args) now])
                    (courses db) (enrollments db) (chat_history db)
                    (enrollmentIdCounter db))
  ∨ (∃ now args s0 rs c0 rc,
       op = OpEnroll now args
       ∧ Sql.students_by_id db (a_student_id args) = s0 :: rs
       ∧ Sql.courses_by_id db (a_course_id args) = c0 :: rc
       ∧ (c_enrolled_count c0 < c_capacity c0)%Z
       ∧ Sql.enrollments_of_pair db (a_student_id args) (a_course_id args) = []
       ∧ (perform db op).2 =
           Sql.update_enrolled_count
             (Sql.insert_enrollment db (a_student_id args) (a_course_id args) now)
             (a_course_id args) 1)
  ∨ (∃ args e re,
       op = OpDrop args
       ∧ Sql.enrollments_of_pair db (a_student_id args) (a_course_id args) = e :: re
       ∧ (perform db op).2 =
           Sql.update_enrolled_count
             (Sql.delete_enrollments db (a_student_id args) (a_course_id args))
             (a_course_id args) (-1)).
Proof.
  destruct op as [rnd now args| |now args|args|sid]; simpl.
  - destruct (register_cases rnd now db args)
      as [(? & ? & _ & ->)|[(E & Hacc & ->)|(_ & _ & ->)]]; [by left| |by left].
    right; left. by exists rnd, now, args.
  - left. unfold listCourses. by destruct (Sql.courses_ordered db).
  - unfold enrollStudent.
    destruct (Sql.students_by_id db _) as [|s0 rs] eqn:Es; [by left|].
    destruct (Sql.courses_by_id db _) as [|c0 rc] eqn:Ec; [by left|].
    case_decide as Hcap; [by left|].
    destruct (Sql.enrollments_of_pair db _ _) eqn:Ep; [|by left].
    right; right; left. exists now, args, s0, rs, c0, rc.
    split_and!; [done|done|done|lia|done|done].
  - unfold dropCourse.
    destruct (Sql.enrollments_of_pair db _ _) as [|e re] eqn:Ep; [by left|].
    right; right; right. by exists args, e, re.
  - left. unfold checkEnrollment.
    destruct (Sql.students_by_id db _); [done|].
    by destruct (Sql.enrollments_joined db _).
Qed.

Lemma perform_all_ind (P : Tables → Prop) :
  (∀ db op, P db → P (perform db op).2) →
  ∀ ops db, P db → P (perform_all db ops).
Proof.
  intros Hstep ops. induction ops as [|op ops IH]; intros db HP; [done|].
  simpl. apply IH. by apply Hstep.
Qed.

Lemma filter_complement_all {A} (P : A → Prop) `{!∀ x, Decision (P x)} (l : list A) :
  filter P l = [] → filter (λ x, ¬ P x) l = l.
Proof.
  induction l as [|x l IH]; [done|].
  rewrite !filter_cons. destruct (decide (P x)); [done|].
  intros E. rewrite decide_True by done. f_equal. by apply IH.
Qed.

Lemma bump_undo cid c : Sql.bump cid (-1) (Sql.bump cid 1 c) = c.
Proof.
  destruct c as [i n ins cap cnt]. unfold Sql.bump. simpl.
  destruct (decide (Some i = cid)) as [E|E]; simpl.
  - rewrite decide_True by done. simpl. f_equal. lia.
  - by rewrite decide_False.
Qed.

Lemma course_pk_bump cid d (l : list Course) :
  (∀ c1 c2, c1 ∈ l → c2 ∈ l → c_id c1 = c_id c2 → c1 = c2) →
  ∀ c1 c2, c1 ∈ Sql.bump cid d <$> l → c2 ∈ Sql.bump cid d <$> l →
           c_id c1 = c_id c2 → c1 = c2.
Proof.
  intros Hpk c1 c2 (b1 & -> & H1)%list_elem_of_fmap (b2 & -> & H2)%list_elem_of_fmap.
  rewrite !bump_id. intros E. by rewrite (Hpk b1 b2).
Qed.

(** ** Enrolling and dropping, composed *)

(** After a successful [enrollStudent], [dropCourse] for the same pair
    succeeds and gives back the rows of every table as they were before
    the enrollment. *)
Theorem enroll_then_drop_restores now db args :
  enrolled_ok (enrollStudent now db args).1 = true →
  let back := dropCourse (enrollStudent now db args).2 args in
  back.1 = "Successfully dropped student " +:+ js_str (a_student_id args)
             +:+ " from course " +:+ js_str (a_course_id args) +:+ "."
  ∧ students back.2 = students db
  ∧ courses back.2 = courses db
  ∧ enrollments back.2 = enrollments db
  ∧ chat_history back.2 = chat_history db.
Proof.
  intros Hok. destruct (enroll_success_inv _ _ _ Hok)
    as (s0 & rs & c0 & rc & _ & _ & _ & Hpair & ->).
  unfold Sql.enrollments_of_pair in Hpair.
  assert (filter (Sql.is_pair (a_student_id args) (a_course_id args))
            (enrollments db
               ++ [mkEnrollment (enrollmentIdCounter db) (a_student_id args)
                                (a_course_id args) now])
          = [mkEnrollment (enrollmentIdCounter db) (a_student_id args)
                          (a_course_id args) now]) as Hone.
  { rewrite filter_app, Hpair. by rewrite filter_cons_True. }
  cbv zeta. unfold dropCourse, Sql.enrollments_of_pair. simpl. rewrite Hone. simpl.
  split_and!; [done|done| | |done].
  - rewrite <-list_fmap_compose. rewrite <-(list_fmap_id (courses db)) at 2.
    apply list_fmap_ext. intros i c _. apply bump_undo.
  - rewrite filter_app, (filter_complement_all _ _ Hpair).
    rewrite filter_cons_False by (intros Hn; by apply Hn). by rewrite app_nil_r.
Qed.

Lemma drop_present db args e re :
  Sql.enrollments_of_pair db (a_student_id args) (a_course_id args) = e :: re →
  dropCourse db args =
    ("Successfully dropped student " +:+ js_str (a_student_id args)
       +:+ " from course " +:+ js_str (a_course_id args) +:+ ".",
     Sql.update_enrolled_count
       (Sql.delete_enrollments db (a_student_id args) (a_course_id args))
       (a_course_id args) (-1)).
Proof. intros E. unfold dropCourse. by rewrite E. Qed.

Lemma drop_absent db args :
  Sql.enrollments_of_pair db (a_student_id args) (a_course_id args) = [] →
  dropCourse db args =
    ("Student " +:+ js_str (a_student_id args) +:+ " is not enrolled in "
       +:+ js_str (a_course_id args) +:+ ".", db).
Proof. intros E. unfold dropCourse. by rewrite E. Qed.

(** When the pair has a row, [dropCourse] succeeds, no row of the pair is
    left, and dropping again reports "not enrolled" and changes nothing. *)
Theorem dropCourse_twice db args e :
  e ∈ enrollments db → e_student_id e = a_student_id args →
  e_course_id e = a_course_id args →
  let first := dropCourse db args in
  first.1 = "Successfully dropped student " +:+ js_str (a_student_id args)
              +:+ " from course " +:+ js_str (a_course_id args) +:+ "."
  ∧ Sql.enrollments_of_pair first.2 (a_student_id args) (a_course_id args) = []
  ∧ dropCourse first.2 args =
      ("Student " +:+ js_str (a_student_id args) +:+ " is not enrolled in "
         +:+ js_str (a_course_id args) +:+ ".", first.2).
Proof.
  intros He H1 H2 first.
  destruct (filter_some (Sql.is_pair (a_student_id args) (a_course_id args)) _ e He)
    as (e0 & re & E); [done|].
  assert (first = ("Successfully dropped student " +:+ js_str (a_student_id args)
                     +:+ " from course " +:+ js_str (a_course_id args) +:+ ".",
                   Sql.update_enrolled_count
                     (Sql.delete_enrollments db (a_student_id args) (a_course_id args))
                     (a_course_id args) (-1))) as -> by (by eapply drop_present).
  assert (Sql.enrollments_of_pair
            (Sql.update_enrolled_count
               (Sql.delete_enrollments db (a_student_id args) (a_course_id args))
               (a_course_id args) (-1)) (a_student_id args) (a_course_id args) = [])
    as Hgone.
  { unfold Sql.enrollments_of_pair. simpl. apply filter_none.
    by intros x [Hx _]%list_elem_of_filter. }
  split_and!; [done|done|]. by apply drop_absent.
Qed.

(** ** Invariants of the store *)

Lemma perform_capacity db op :
  Schema.course_pk db ∧ within_capacity db →
  Schema.course_pk (perform db op).2 ∧ within_capacity (perform db op).2.
Proof.
  intros [Hpk Hcap].
  destruct (perform_cases db op)
    as [-> | [(rnd & now & args & _ & _ & _ & ->)
           | [(now & args & s0 & rs & c0 & rc & _ & _ & Ec & Hfree & _ & ->)
             | (args & e & re & _ & _ & ->)]]]; [done|done| |].
  - split; [exact (course_pk_bump _ _ _ Hpk)|].
    intros c' (c & -> & Hc)%list_elem_of_fmap. specialize (Hcap c Hc).
    apply filter_head in Ec as [Hid0 Hc0].
    unfold Sql.bump. case_decide as Hid; simpl; [|done].
    assert (c = c0) as -> by (apply Hpk; [done..|congruence]). lia.
  - split; [exact (course_pk_bump _ _ _ Hpk)|].
    intros c' (c & -> & Hc)%list_elem_of_fmap. specialize (Hcap c Hc).
    unfold Sql.bump. case_decide; simpl; lia.
Qed.

(** Starting from a store that has the constraints of the schema, matching
    counts and no course over capacity, every course has
    [0 <= enrolled_count <= capacity] after any sequence of operations. *)
Theorem enrolled_count_within_bounds db ops :
  Schema.course_pk db → Schema.pair_unique db → Schema.counts_consistent db →
  within_capacity db →
  ∀ c, c ∈ courses (perform_all db ops) →
       (0 <= c_enrolled_count c <= c_capacity c)%Z.
Proof.
  intros Hpk Hu Hc Hcap c Hin.
  destruct (perform_all_invariant db ops Hu Hc) as [_ Hcount].
  destruct (perform_all_ind _ perform_capacity ops db (conj Hpk Hcap)) as [_ Hle].
  split; [rewrite (Hcount c Hin); lia | by apply Hle].
Qed.

Lemma perform_references db op :
  references_exist db → references_exist (perform db op).2.
Proof.
  intros Href.
  destruct (perform_cases db op)
    as [-> | [(rnd & now & args & _ & _ & _ & ->)
           | [(now & args & s0 & rs & c0 & rc & _ & Es & Ec & _ & _ & ->)
             | (args & e0 & re & _ & _ & ->)]]]; [done| | |].
  - intros e He. destruct (Href e He) as [(s & Hs & E) Hcourse].
    split; [|done]. exists s. split; [|done]. simpl. apply elem_of_app. by left.
  - apply filter_head in Es as [Hsid Hs0]. apply filter_head in Ec as [Hcid Hc0].
    intros e [He | ->%list_elem_of_singleton]%elem_of_app.
    + destruct (Href e He) as [Hstudent (c & Hc & E)]. split; [done|].
      exists (Sql.bump (a_course_id args) 1 c).
      split; [by apply list_elem_of_fmap_2 | by rewrite bump_id].
    + split; [by exists s0|]. exists (Sql.bump (a_course_id args) 1 c0).
      split; [by apply list_elem_of_fmap_2 | by rewrite bump_id].
  - intros e [_ He]%list_elem_of_filter.
    destruct (Href e He) as [Hstudent (c & Hc & E)]. split; [done|].
    exists (Sql.bump (a_course_id args) (-1) c).
    split; [by apply list_elem_of_fmap_2 | by rewrite bump_id].
Qed.

(** Referential integrity is kept by the tools: when every Enrollment row
    names an existing student and an existing course, the same holds after
    any sequence of operations. *)
Theorem references_exist_preserved db ops :
  references_exist db → references_exist (perform_all db ops).
Proof. apply (perform_all_ind _ perform_references). Qed.

Lemma perform_email_unique db op :
  Schema.email_unique db → Schema.email_unique (perform db op).2.
Proof.
  intros Hu.
  destruct (perform_cases db op)
    as [-> | [(rnd & now & args & _ & E & _ & ->)
           | [(now & args & s0 & rs & c0 & rc & _ & _ & _ & _ & _ & ->)
             | (args & e0 & re & _ & _ & ->)]]]; [done| |done|done].
  intros email. pose proof (Hu email) as Hle.
  unfold Sql.students_by_email in *. simpl.
  rewrite filter_app, length_app, filter_cons, filter_nil.
  case_decide as Heq; simpl in *; [|lia].
  rewrite <-Heq, E. done.
Qed.

(** Email uniqueness is kept by the tools: no sequence of operations gives
    two Student rows the same email. *)
Theorem email_unique_preserved db ops :
  Schema.email_unique db → Schema.email_unique (perform_all db ops).
Proof. apply (perform_all_ind _ perform_email_unique). Qed.

Lemma bump_catalogue cid d c : catalogue_entry (Sql.bump cid d c) = catalogue_entry c.
Proof. unfold Sql.bump. by case_decide. Qed.

Lemma perform_catalogue db0 db op :
  students db0 `prefix_of` students db
  ∧ catalogue_entry <$> courses db = catalogue_entry <$> courses db0
  ∧ chat_history db = chat_history db0 →
  students db0 `prefix_of` students (perform db op).2
  ∧ catalogue_entry <$> courses (perform db op).2 = catalogue_entry <$> courses db0
  ∧ chat_history (perform db op).2 = chat_history db0.
Proof.
  intros (Hst & Hcat & Hchat).
  assert (∀ d, catalogue_entry <$> (Sql.bump d.1 d.2 <$> courses db)
               = catalogue_entry <$> courses db0) as Hbump.
  { intros d. rewrite <-list_fmap_compose, <-Hcat. apply list_fmap_ext.
    intros i c _. apply bump_catalogue. }
  destruct (perform_cases db op)
    as [-> | [(rnd & now & args & _ & _ & _ & ->)
           | [(now & args & s0 & rs & c0 & rc & _ & _ & _ & _ & _ & ->)
             | (args & e0 & re & _ & _ & ->)]]]; [done| | |].
  - split_and!; [|done|done]. simpl. by apply prefix_app_r.
  - split_and!; [done| |done]. apply (Hbump (a_course_id args, 1%Z)).
  - split_and!; [done| |done]. apply (Hbump (a_course_id args, (-1)%Z)).
Qed.

(** The tools only ever append students and only ever write the
    [enrolled_count] column of a course: after any sequence of operations
    the old Student rows are still there, in place and unaltered, the
    courses are the same in id, name, instructor and capacity, and the
    chat history is untouched. *)
Theorem tools_keep_students_and_catalogue db ops :
  students db `prefix_of` students (perform_all db ops)
  ∧ catalogue_entry <$> courses (perform_all db ops) = catalogue_entry <$> courses db
  ∧ chat_history (perform_all db ops) = chat_history db.
Proof.
  apply (perform_all_ind
           (λ db', students db `prefix_of` students db'
                   ∧ catalogue_entry <$> courses db' = catalogue_entry <$> courses db
                   ∧ chat_history db' = chat_history db)).
  - intros db' op. apply perform_catalogue.
  - done.
Qed.

(** ** Reading tools *)

Lemma insert_by_perm {A} (key : A → string) x (l : list A) :
  Sql.insert_by key x l ≡ₚ x :: l.
Proof.
  induction l as [|y l IH]; simpl; [done|].
  destruct (String.leb (key x) (key y)); [done|].
  rewrite IH. apply Permutation_swap.
Qed.

Lemma order_by_perm {A} (key : A → string) (l : list A) : Sql.order_by key l ≡ₚ l.
Proof.
  induction l as [|x l IH]; [done|].
  change (Sql.order_by key (x :: l)) with (Sql.insert_by key x (Sql.order_by key l)).
  by rewrite insert_by_perm, IH.
Qed.

Lemma insert_by_sorted {A} (key : A → string) x (l : list A) :
  Sorted (λ a b, String.le (key a) (key b)) l →
  Sorted (λ a b, String.le (key a) (key b)) (Sql.insert_by key x l).
Proof.
  induction l as [|y l IH]; intros Hs; simpl.
  { by repeat constructor. }
  destruct (String.leb (key x) (key y)) eqn:E.
  { constructor; [done|]. constructor. unfold String.le. by rewrite E. }
  assert (String.le (key y) (key x)) as Hyx.
  { destruct (total String.le (key x) (key y)) as [H|H]; [|done].
    unfold String.le in H. by rewrite E in H. }
  apply Sorted_inv in Hs as [Hs Hhd]. constructor; [by apply IH|].
  destruct l as [|z l]; simpl; [by constructor|].
  destruct (String.leb (key x) (key z)); constructor; [done|].
  by apply HdRel_inv in Hhd.
Qed.

Lemma order_by_sorted {A} (key : A → string) (l : list A) :
  Sorted (λ a b, String.le (key a) (key b)) (Sql.order_by key l).
Proof.
  induction l as [|x l IH]; [constructor|].
  change (Sql.order_by key (x :: l)) with (Sql.insert_by key x (Sql.order_by key l)).
  by apply insert_by_sorted.
Qed.

(** [listCourses] changes nothing; without courses it says so, and
    otherwise it prints one line per course row, all of them, in the order
    of their ids. *)
Theorem listCourses_lists_every_course db :
  (listCourses db).2 = db
  ∧ (courses db = [] → (listCourses db).1 = "No courses are currently available.")
  ∧ (courses db ≠ [] →
     ∃ cs, cs ≡ₚ courses db
           ∧ Sorted (λ a b, String.le (c_id a) (c_id b)) cs
           ∧ (listCourses db).1 =
               "Available courses:" +:+ nl +:+ join nl (course_line <$> cs)).
Proof.
  unfold listCourses, Sql.courses_ordered.
  pose proof (order_by_perm c_id (courses db)) as Hperm.
  pose proof (order_by_sorted c_id (courses db)) as Hsorted.
  destruct (Sql.order_by c_id (courses db)) as [|c cs] eqn:E.
  - apply Permutation_nil_l in Hperm. split_and!; [done|done|]. by rewrite <-Hperm.
  - split_and!; [done| |].
    + intros Hnil. rewrite Hnil in Hperm. by apply Permutation_nil_r in Hperm.
    + intros _. by exists (c :: cs).
Qed.

Lemma check_listed db sid s0 rs ec es :
  Sql.students_by_id db sid = s0 :: rs →
  Sql.enrollments_joined db sid = ec :: es →
  checkEnrollment db sid =
    ("Enrollments for " +:+ js_str (s_name s0) +:+ " (" +:+ js_str sid +:+ "):"
       +:+ nl +:+ join nl (enrollment_line <$> ec :: es), db).
Proof. intros Es Ej. unfold checkEnrollment. by rewrite Es, Ej. Qed.

(** After a successful [enrollStudent], [checkEnrollment] for the student
    lists the course: its answer is the list of the student's enrollments,
    and the row just made, joined with its course, is in it. *)
Theorem checkEnrollment_after_enroll now db args :
  enrolled_ok (enrollStudent now db args).1 = true →
  let db1 := (enrollStudent now db args).2 in
  ∃ s es e c,
    s ∈ students db ∧ a_student_id args = Some (s_id s)
    ∧ checkEnrollment db1 (a_student_id args) =
        ("Enrollments for " +:+ js_str (s_name s) +:+ " ("
           +:+ js_str (a_student_id args) +:+ "):" +:+ nl
           +:+ join nl (enrollment_line <$> es), db1)
    ∧ (e, c) ∈ es
    ∧ e_student_id e = a_student_id args
    ∧ e_course_id e = a_course_id args
    ∧ e_enrolled_at e = now
    ∧ a_course_id args = Some (c_id c).
Proof.
  intros Hok. destruct (enroll_success_inv _ _ _ Hok)
    as (s0 & rs & c0 & rc & Es & Ec & _ & _ & ->).
  set (db1 := Sql.update_enrolled_count _ _ _). cbv zeta.
  set (row := mkEnrollment (enrollmentIdCounter db) (a_student_id args)
                           (a_course_id args) now).
  pose proof Es as Es1. apply filter_head in Es as [Hsid Hs0].
  apply filter_head in Ec as [Hcid Hc0].
  assert ((row, Sql.bump (a_course_id args) 1 c0)
          ∈ Sql.enrollments_joined db1 (a_student_id args)) as Hin.
  { unfold Sql.enrollments_joined. rewrite !order_by_perm.
    apply list_elem_of_filter. split; [done|].
    apply list_elem_of_In, in_flat_map. exists row. split.
    - apply list_elem_of_In. unfold db1. simpl. apply elem_of_app. right. by left.
    - apply list_elem_of_In, list_elem_of_fmap_2, list_elem_of_filter.
      split; [by rewrite bump_id|]. unfold db1. simpl.
      by apply list_elem_of_fmap_2. }
  destruct (Sql.enrollments_joined db1 (a_student_id args)) as [|ec es] eqn:Ej.
  { by apply elem_of_nil in Hin. }
  exists s0, (ec :: es), row, (Sql.bump (a_course_id args) 1 c0).
  split_and!; [done|done| |done|done|done|done|by rewrite bump_id].
  apply (check_listed db1 _ s0 rs ec es); [exact Es1 | exact Ej].
Qed.

Lemma email_not_registered db email :
  Sql.students_by_email db email = [] → email ∉ s_email <$> students db.
Proof.
  intros E (s & -> & Hs)%list_elem_of_fmap.
  by apply (filter_nil_not_elem_of (λ s0, s_email s0 = s_email s) _ s E).
Qed.

(** Why the INSERT of a row with a new email is refused. *)
Lemma student_refused db s :
  Sql.students_by_email db (s_email s) = [] →
  ¬ Sql.student_accepted db s ↔
    s_name s = None ∨ s_email s = None ∨ s_id s ∈ s_id <$> students db.
Proof.
  intros E. apply email_not_registered in E. unfold Sql.student_accepted. split.
  - intros Hno. destruct (s_name s) as [n|] eqn:En; [|by left].
    destruct (s_email s) as [m|] eqn:Em; [|by right; left].
    destruct (decide (s_id s ∈ s_id <$> students db)) as [Hid|Hid]; [by right; right|].
    destruct Hno. by split_and!.
  - intros [En|[Em|Hid]] (Hn & Hm & Hfresh & _).
    + rewrite En in Hn. by destruct Hn.
    + rewrite Em in Hm. by destruct Hm.
    + done.
Qed.

(** A call of [registerStudent] throws exactly when the email is not
    registered and the new row is refused: the name or the email is
    missing, or the generated id is in use; the store is then as it was.
    Otherwise the student id in its answer is the id of a Student row that
    is in the store afterwards and has the email of the call; so
    [enrollStudent] with that id never answers "student not found". *)
Theorem registerStudent_reports_stored_id rnd now db args :
  let r := registerStudent rnd now db args in
  (r = (Threw, db)
   ∧ Sql.students_by_email db (a_email args) = []
   ∧ (a_name args = None ∨ a_email args = None
      ∨ "STU-" +:+ rnd ∈ s_id <$> students db))
  ∨ (∃ s, s ∈ students r.2 ∧ s_email s = a_email args
       ∧ (r.1 = Returned ("Student registered successfully. Student ID: " +:+ s_id s
                            +:+ ", Name: " +:+ js_str (a_name args) +:+ ", Email: "
                            +:+ js_str (a_email args))
          ∧ s = mkStudent ("STU-" +:+ rnd) (a_name args) (a_email args) now
          ∧ students r.2 = students db ++ [s]
          ∧ Sql.students_by_email db (a_email args) = []
          ∧ is_Some (a_name args) ∧ is_Some (a_email args)
          ∧ "STU-" +:+ rnd ∉ s_id <$> students db
          ∨ r.1 = Returned ("Student already registered with email "
                              +:+ js_str (a_email args) +:+ ". Student ID: " +:+ s_id s)
            ∧ s ∈ students db ∧ r.2 = db)
       ∧ ∀ now' cid,
           (enrollStudent now' r.2 (mkPairArgs (Some (s_id s)) cid)).1
           ≠ "Error: Student " +:+ s_id s +:+ " not found. Please register first.").
Proof.
  intros r.
  assert (∀ s, s ∈ students r.2 → ∀ now' cid,
            (enrollStudent now' r.2 (mkPairArgs (Some (s_id s)) cid)).1
            ≠ "Error: Student " +:+ s_id s +:+ " not found. Please register first.")
    as Hfound.
  { intros s Hs now' cid. unfold enrollStudent. simpl.
    destruct (filter_some (λ s1, Some (s_id s1) = Some (s_id s)) _ s Hs eq_refl)
      as (s1 & rs1 & E1).
    unfold Sql.students_by_id. rewrite E1.
    destruct (Sql.courses_by_id r.2 cid); [simpl; discriminate|].
    case_decide; [simpl; discriminate|].
    destruct (Sql.enrollments_of_pair r.2 _ _); simpl; discriminate. }
  destruct (register_cases rnd now db args)
    as [(s0 & rs & E & Hr)|[(E & Hacc & Hr)|(E & Hacc & Hr)]]; fold r in Hr.
  - right. exists s0. apply filter_head in E as [? ?].
    assert (s0 ∈ students r.2) as Hs by (by rewrite Hr).
    split_and!; [done|done| |by apply Hfound].
    right. by rewrite Hr.
  - right. exists (mkStudent ("STU-" +:+ rnd) (a_name args) (a_email args) now).
    assert (mkStudent ("STU-" +:+ rnd) (a_name args) (a_email args) now ∈ students r.2)
      as Hs by (rewrite Hr; simpl; apply elem_of_app; right; by left).
    split_and!; [done|done| |by apply Hfound].
    left. destruct Hacc as (Hn & Hm & Hid & _). by rewrite Hr.
  - left. split_and!; [done|done|].
    by apply (student_refused db
                (mkStudent ("STU-" +:+ rnd) (a_name args) (a_email args) now)).
Qed.

(** ** The dispatcher and the descriptors *)

Lemma executeTool_perform rnd now db name args :
  (∃ op, executeTool rnd now db name args = perform db op)
  ∨ ((name ∉ td_name <$> TOOL_DESCRIPTORS)
     ∧ executeTool rnd now db name args = (Returned ("Unknown tool: " +:+ name), db)).
Proof.
  unfold executeTool.
  destruct (String.eqb_spec name "register_student"); [left; by eexists (OpRegister _ _ _)|].
  destruct (String.eqb_spec name "list_courses"); [left; by exists OpList|].
  destruct (String.eqb_spec name "enroll_student"); [left; by eexists (OpEnroll _ _)|].
  destruct (String.eqb_spec name "drop_course"); [left; by eexists (OpDrop _)|].
  destruct (String.eqb_spec name "check_enrollment"); [left; by eexists (OpCheck _)|].
  right. split; [|done]. cbn. intros H.
  repeat (apply elem_of_cons in H as [->|H]; [congruence|]).
  by apply elem_of_nil in H.
Qed.

(** The descriptors and the dispatcher agree: a name that a descriptor
    advertises is dispatched to one of the five tools, with the arguments
    read off the argument object, and never answered "Unknown tool". *)
Theorem executeTool_advertised rnd now db name args :
  name ∈ td_name <$> TOOL_DESCRIPTORS →
  ∃ op, executeTool rnd now db name args = perform db op
        ∧ match op with
          | OpRegister r t a =>
              name = "register_student" ∧ r = rnd ∧ t = now
              ∧ a = mkRegisterArgs (args !! "name") (args !! "email")
          | OpList => name = "list_courses"
          | OpEnroll t a =>
              name = "enroll_student" ∧ t = now
              ∧ a = mkPairArgs (args !! "student_id") (args !! "course_id")
          | OpDrop a =>
              name = "drop_course"
              ∧ a = mkPairArgs (args !! "student_id") (args !! "course_id")
          | OpCheck sid => name = "check_enrollment" ∧ sid = args !! "student_id"
          end.
Proof.
  intros Hname. cbn in Hname.
  repeat (apply elem_of_cons in Hname as [->|Hname]);
    [eexists (OpRegister _ _ _) | exists OpList | eexists (OpEnroll _ _)
    | eexists (OpDrop _) | eexists (OpCheck _) | by apply elem_of_nil in Hname];
    by split.
Qed.

(** ** The loop, further *)

Lemma perform_store_ok db op : store_ok db → store_ok (perform db op).2.
Proof.
  intros (He & Hpk & Hu & Hc & Hcap & Href).
  destruct (perform_capacity db op (conj Hpk Hcap)) as [Hpk' Hcap'].
  pose proof (perform_effect db op) as Heff.
  split_and!; [by apply perform_email_unique | done | by eapply effect_pair_unique
              | by eapply effect_counts | done | by apply perform_references].
Qed.

Section Loop_further.

Context (AI_run : nat → list Message → AIResponse)
        (JSON_stringify : gmap string string → string)
        (random_suffix now_iso : nat → string).

Local Abbreviation dispatch_all' := (dispatch_all random_suffix now_iso).
Local Abbreviation rounds' := (rounds AI_run JSON_stringify random_suffix now_iso).
Local Abbreviation callLLM' := (callLLM AI_run JSON_stringify random_suffix now_iso).
Local Abbreviation answer' st := (AI_run (length (ai_calls st)) (messages st)).
Local Abbreviation summarised' st tcs :=
  (push_summary JSON_stringify (received st (answer' st)) tcs).

Lemma rounds_reply left st :
  requests_tools (answer' st) = false →
  rounds' (S left) st =
    (Returned (match response (answer' st) with
               | Some text => if String.eqb text "" then FALLBACK_UNPROCESSED else text
               | None => FALLBACK_UNPROCESSED
               end), received st (answer' st)).
Proof.
  unfold requests_tools. cbn [rounds].
  destruct (tool_calls _) as [[|tc tcs]|]; [|done|]; intros _;
    (destruct (response _) as [text|]; [|done]); by destruct (String.eqb text "").
Qed.

(** Induction over the rounds of the loop. *)
Lemma rounds_ind (Q : Agent → Completion string * Agent → Prop) :
  (∀ st, Q st (Returned FALLBACK_EXHAUSTED, st)) →
  (∀ left st, requests_tools (answer' st) = false → Q st (rounds' (S left) st)) →
  (∀ st tc tcs st2,
     tool_calls (answer' st) = Some (tc :: tcs) →
     dispatch_all' (summarised' st (tc :: tcs)) (tc :: tcs) = (Threw, st2) →
     Q st (Threw, st2)) →
  (∀ left st tc tcs u st2,
     tool_calls (answer' st) = Some (tc :: tcs) →
     dispatch_all' (summarised' st (tc :: tcs)) (tc :: tcs) = (Returned u, st2) →
     Q st2 (rounds' left st2) → Q st (rounds' left st2)) →
  ∀ left st, Q st (rounds' left st).
Proof.
  intros H0 Hstop Hthrew Hgo left. induction left as [|left IH]; intros st; [apply H0|].
  destruct (requests_tools (answer' st)) eqn:Hreq; [|by apply Hstop].
  unfold requests_tools in Hreq.
  destruct (tool_calls (answer' st)) as [[|tc tcs]|] eqn:E; [done| |done].
  rewrite (rounds_tools _ _ _ _ _ _ _ _ E).
  destruct (dispatch_all' _ (tc :: tcs)) as [[u|] st2] eqn:Ed.
  - eapply Hgo; [done..|apply IH].
  - eapply Hthrew; done.
Qed.

Lemma dispatch_all_store (P : Tables → Prop) tcs st :
  (∀ db op, P db → P (perform db op).2) →
  P (sql st) → P (sql (dispatch_all' st tcs).2).
Proof.
  intros Hstep. revert st. induction tcs as [|tc tcs IH]; intros st HP; [done|].
  rewrite dispatch_all_cons, dispatch_unfold.
  assert (P (executeTool (random_suffix (draws st)) (now_iso (draws st)) (sql st)
               (tc_name tc) (tc_arguments tc)).2) as HP'.
  { destruct (executeTool_perform (random_suffix (draws st)) (now_iso (draws st))
                (sql st) (tc_name tc) (tc_arguments tc)) as [[op ->] | [_ ->]];
      [by apply Hstep | done]. }
  destruct (executeTool _ _ _ _ _).1; [by apply IH | done].
Qed.

Lemma rounds_store (P : Tables → Prop) left st :
  (∀ db op, P db → P (perform db op).2) →
  P (sql st) → P (sql (rounds' left st).2).
Proof.
  intros Hstep. revert left st.
  apply (rounds_ind (λ st r, P (sql st) → P (sql r.2))).
  - done.
  - intros left st Hreq. by rewrite rounds_reply.
  - intros st tc tcs st2 E Ed HP.
    pose proof (dispatch_all_store P (tc :: tcs) (summarised' st (tc :: tcs)) Hstep HP)
      as HP2.
    by rewrite Ed in HP2.
  - intros left st tc tcs u st2 E Ed IH HP. apply IH.
    pose proof (dispatch_all_store P (tc :: tcs) (summarised' st (tc :: tcs)) Hstep HP)
      as HP2.
    by rewrite Ed in HP2.
Qed.

(** Whatever the model answers, [callLLM] takes a store that meets the
    constraints of the schema and the consistency rules (unique emails,
    unique course ids, one row per pair, counts equal to the rows, no
    course over capacity, rows naming existing students and courses) to a
    store that meets them. *)
Theorem callLLM_keeps_store_ok st :
  store_ok (sql st) → store_ok (sql (callLLM' st).2).
Proof. apply rounds_store, perform_store_ok. Qed.

(** When the model answers with a text that is not empty and asks for no
    tool, the loop ends at once with exactly that text; only the
    invocation is recorded. *)
Theorem rounds_final_answer left st text :
  requests_tools (answer' st) = false →
  response (answer' st) = Some text → text ≠ "" →
  rounds' (S left) st =
    (Returned text,
     mkAgent (messages st) (sql st) (ai_calls st ++ [answer' st]) (draws st)).
Proof.
  intros Hreq Htext Hne. rewrite (rounds_reply _ _ Hreq), Htext.
  by destruct (String.eqb_spec text "").
Qed.

Lemma rounds_not_empty left st : (rounds' left st).1 ≠ Returned "".
Proof.
  revert left st.
  apply (rounds_ind (λ _ r, r.1 ≠ Returned "")); [done| |done|done].
  intros left st Hreq. rewrite (rounds_reply _ _ Hreq). simpl.
  destruct (response _) as [text|]; [|done].
  destruct (String.eqb_spec text ""); [done|congruence].
Qed.

(** The reply of [callLLM] is never the empty string. *)
Theorem callLLM_reply_not_empty st :
  (callLLM AI_run JSON_stringify random_suffix now_iso st).1 ≠ Returned "".
Proof. apply rounds_not_empty. Qed.

(** [callLLM] only ever pushes turns: the sequence it was given is a
    prefix of the sequence it leaves. *)
Theorem callLLM_keeps_earlier_turns st :
  messages st
    `prefix_of` messages (callLLM AI_run JSON_stringify random_suffix now_iso st).2.
Proof.
  unfold callLLM. generalize maxRounds. intros left. revert left st.
  assert (∀ st tcs, messages st
            `prefix_of` messages (dispatch_all' (summarised' st tcs) tcs).2) as Hround.
  { intros st tcs. etrans; [|apply dispatch_all_prefix]. simpl. by apply prefix_app_r. }
  apply (rounds_ind (λ st r, messages st `prefix_of` messages r.2)).
  - done.
  - intros left st Hreq. by rewrite rounds_reply.
  - intros st tc tcs st2 E Ed. specialize (Hround st (tc :: tcs)). by rewrite Ed in Hround.
  - intros left st tc tcs u st2 E Ed IH. etrans; [|exact IH].
    specialize (Hround st (tc :: tcs)). by rewrite Ed in Hround.
Qed.

(** The dispatches and the turns of one round. *)
Lemma dispatch_all_counts tcs st :
  ((dispatch_all' st tcs).1 ≠ Threw →
     draws (dispatch_all' st tcs).2 = draws st + length tcs
     ∧ length (messages (dispatch_all' st tcs).2) = length (messages st) + length tcs)
  ∧ ((dispatch_all' st tcs).1 = Threw →
     draws st < draws (dispatch_all' st tcs).2
     ∧ draws (dispatch_all' st tcs).2 ≤ draws st + length tcs
     ∧ length (messages (dispatch_all' st tcs).2) + 1 =
         length (messages st) + (draws (dispatch_all' st tcs).2 - draws st)).
Proof.
  destruct (dispatch_all_trace random_suffix now_iso tcs st)
    as (results & stores & Hlen & _ & _ & Hall & Hthrew).
  destruct (decide (length results = length tcs)) as [Hl|Hl].
  - rewrite (Hall Hl). simpl. split; [|done]. intros _.
    rewrite length_app, length_zip_with. lia.
  - destruct Hthrew as [-> _]; [lia|]. simpl. split; [done|]. intros _.
    rewrite length_app, length_zip_with. lia.
Qed.

(** The tool calls the model asked for in the responses that [callLLM]
    received are dispatched at most once each.  When [callLLM] returns,
    every one of them was dispatched: the number of dispatches is the total
    number of calls requested, and the turns pushed are one per call plus
    one summary per response that requested calls; this includes the calls
    of a fifth round, whose results the model is never shown.  When a call
    throws, the calls requested after it are not dispatched, and every
    dispatch but that one has pushed its turn. *)
Theorem callLLM_dispatches_every_request st :
  ∃ seen,
    ai_calls (callLLM' st).2 = ai_calls st ++ seen
    ∧ draws st ≤ draws (callLLM' st).2
    ∧ draws (callLLM' st).2 ≤ draws st + sum_list (requested <$> seen)
    ∧ ((callLLM' st).1 ≠ Threw →
       draws (callLLM' st).2 = draws st + sum_list (requested <$> seen)
       ∧ length (messages (callLLM' st).2) =
           length (messages st) + sum_list (requested <$> seen)
           + length (filter (λ r, requests_tools r = true) seen))
    ∧ ((callLLM' st).1 = Threw →
       length (messages (callLLM' st).2) + 1 =
         length (messages st) + (draws (callLLM' st).2 - draws st)
         + length (filter (λ r, requests_tools r = true) seen)).
Proof.
  unfold callLLM. generalize maxRounds. intros left. revert left st.
  apply (rounds_ind (λ st r, ∃ seen,
    ai_calls r.2 = ai_calls st ++ seen
    ∧ draws st ≤ draws r.2
    ∧ draws r.2 ≤ draws st + sum_list (requested <$> seen)
    ∧ (r.1 ≠ Threw →
       draws r.2 = draws st + sum_list (requested <$> seen)
       ∧ length (messages r.2) =
           length (messages st) + sum_list (requested <$> seen)
           + length (filter (λ r, requests_tools r = true) seen))
    ∧ (r.1 = Threw →
       length (messages r.2) + 1 =
         length (messages st) + (draws r.2 - draws st)
         + length (filter (λ r, requests_tools r = true) seen)))).
  - intros st. exists []. simpl. rewrite app_nil_r.
    split_and!; [done|lia|lia| |done]. intros _. lia.
  - intros left st Hreq. rewrite rounds_reply by done. exists [answer' st]. simpl.
    rewrite filter_cons_False by (by rewrite Hreq).
    assert (requested (answer' st) = 0) as ->.
    { unfold requested, requests_tools in *.
      by destruct (tool_calls _) as [[|??]|]. }
    simpl. split_and!; [done|lia|lia| |done]. intros _. lia.
  - intros st tc tcs st2 E Ed. exists [answer' st].
    pose proof (dispatch_all_ai_calls random_suffix now_iso (tc :: tcs)
                  (summarised' st (tc :: tcs))) as Hai.
    destruct (dispatch_all_counts (tc :: tcs) (summarised' st (tc :: tcs)))
      as [_ Hcount].
    rewrite Ed in Hai, Hcount. simpl in Hai, Hcount.
    destruct (Hcount eq_refl) as (Hlt & Hle & Hlen).
    rewrite length_app in Hlen. simpl in Hlen.
    rewrite filter_cons_True by (unfold requests_tools; by rewrite E).
    assert (requested (answer' st) = S (length tcs)) as Hrq
      by (unfold requested; by rewrite E).
    simpl. rewrite Hrq.
    split_and!; [done|lia|lia|done|]. intros _. lia.
  - intros left st tc tcs u st2 E Ed (seen & Hcalls & Hmono & Hdraws & Hret & Hthrew).
    exists (answer' st :: seen).
    pose proof (dispatch_all_ai_calls random_suffix now_iso (tc :: tcs)
                  (summarised' st (tc :: tcs))) as Hai.
    destruct (dispatch_all_counts (tc :: tcs) (summarised' st (tc :: tcs)))
      as [Hcount _].
    rewrite Ed in Hai, Hcount. simpl in Hai, Hcount.
    destruct Hcount as [Hd Hlen]; [done|].
    rewrite length_app in Hlen. simpl in Hlen.
    rewrite filter_cons_True by (unfold requests_tools; by rewrite E).
    assert (requested (answer' st) = S (length tcs)) as Hrq
      by (unfold requested; by rewrite E).
    simpl. rewrite Hrq.
    change (list_fmap AIResponse nat requested seen) with (requested <$> seen).
    split_and!.
    + rewrite Hcalls, Hai. by rewrite <-app_assoc.
    + lia.
    + lia.
    + intros Hne. destruct (Hret Hne) as [H1 H2]. lia.
    + intros Ht. specialize (Hthrew Ht). lia.
Qed.

End Loop_further.

(** ** The agent *)

Lemma syncState_idem a : syncState (syncState a) = syncState a.
Proof. by destruct a as [db [sid sname ec ac] calls n]. Qed.

Lemma order_by_sorted_id {A} (key : A → string) (l : list A) :
  Sorted (λ a b, String.le (key a) (key b)) l → Sql.order_by key l = l.
Proof.
  induction l as [|x l IH]; [done|]. intros [Hs Hhd]%Sorted_inv.
  change (Sql.order_by key (x :: l)) with (Sql.insert_by key x (Sql.order_by key l)).
  rewrite IH by done. destruct Hhd as [|y l Hxy]; [done|]. simpl.
  unfold String.le in Hxy. by destruct (String.leb (key x) (key y)).
Qed.

(** [_syncState] leaves the store, the current student and the loop
    counters alone; the course list it publishes holds every course row
    once, ordered by id; and syncing twice is syncing once. *)
Theorem syncState_snapshot a :
  ea_sql (syncState a) = ea_sql a
  ∧ currentStudentId (ea_state (syncState a)) = currentStudentId (ea_state a)
  ∧ currentStudentName (ea_state (syncState a)) = currentStudentName (ea_state a)
  ∧ availableCourses (ea_state (syncState a)) ≡ₚ courses (ea_sql a)
  ∧ Sorted (λ c1 c2, String.le (c_id c1) (c_id c2))
           (availableCourses (ea_state (syncState a)))
  ∧ syncState (syncState a) = syncState a.
Proof.
  split_and!; [done|done|done| | |apply syncState_idem].
  - apply order_by_perm.
  - apply order_by_sorted.
Qed.

Lemma substring_append_r (p s : string) :
  String.substring (String.length p) (String.length s) (p +:+ s) = s.
Proof.
  induction p as [|c p IH]; simpl; [|done].
  induction s as [|c s IH]; simpl; [done | by rewrite IH].
Qed.

Lemma endsWith_append (p suffix : string) : endsWith (p +:+ suffix) suffix = true.
Proof.
  unfold endsWith. rewrite length_append, decide_True by lia.
  replace (String.length p + String.length suffix - String.length suffix)
    with (String.length p) by lia.
  rewrite substring_append_r. apply String.eqb_refl.
Qed.

Lemma ltb_not_leb (a b : string) : String.ltb a b = true → String.leb b a = false.
Proof.
  unfold String.ltb, String.leb. rewrite (String.compare_antisym a b).
  by destruct (String.compare b a).
Qed.

Lemma insert_by_desc_least {A} (key : A → string) x (l : list A) :
  (∀ y, y ∈ l → String.ltb (key x) (key y) = true) →
  ServerSql.insert_by_desc key x l = l ++ [x].
Proof.
  induction l as [|y l IH]; intros Hlt; simpl; [done|].
  rewrite (ltb_not_leb (key x) (key y)) by (apply Hlt; by left).
  rewrite IH; [done|]. intros z Hz. apply Hlt. by right.
Qed.

Lemma order_by_desc_ascending {A} (key : A → string) (l : list A) :
  StronglySorted (λ a b, String.ltb (key a) (key b) = true) l →
  ServerSql.order_by_desc key l = reverse l.
Proof.
  induction l as [|x l IH]; [done|]. intros [Hs Hall]%StronglySorted_inv.
  change (ServerSql.order_by_desc key (x :: l))
    with (ServerSql.insert_by_desc key x (ServerSql.order_by_desc key l)).
  rewrite IH by done. rewrite reverse_cons. apply insert_by_desc_least.
  rewrite Forall_forall in Hall. intros y Hy. apply Hall. by apply elem_of_reverse.
Qed.

Lemma order_by_desc_length {A} (key : A → string) (l : list A) :
  length (ServerSql.order_by_desc key l) = length l.
Proof.
  assert (∀ x k, length (ServerSql.insert_by_desc key x k) = S (length k)) as Hins.
  { intros x k. induction k as [|y k IH]; simpl; [done|].
    destruct (String.leb (key y) (key x)); simpl; [done | by rewrite IH]. }
  induction l as [|x l IH]; [done|].
  change (ServerSql.order_by_desc key (x :: l))
    with (ServerSql.insert_by_desc key x (ServerSql.order_by_desc key l)).
  by rewrite Hins, IH.
Qed.

(** The turn sequence [_handleChat] builds for the model is the system
    prompt followed by at most 20 stored turns; when the rows of the chat
    history are stored with strictly increasing timestamps, these are the
    last 20 rows, oldest first. *)
Theorem chat_context_window db :
  length (chat_context db) = S (min 20 (length (chat_history db)))
  ∧ head (chat_context db) = Some (mkMessage "system" SYSTEM_PROMPT)
  ∧ (StronglySorted (λ m1 m2, String.ltb (m_timestamp m1) (m_timestamp m2) = true)
                    (chat_history db) →
     chat_context db =
       mkMessage "system" SYSTEM_PROMPT
       :: ((λ m, mkMessage (m_role m) (m_content m))
             <$> drop (length (chat_history db) - 20) (chat_history db))).
Proof.
  unfold chat_context, ServerSql.recent_turns. split_and!; [|done|].
  - simpl. rewrite length_reverse, length_fmap, length_take, order_by_desc_length. done.
  - intros Hs. rewrite (order_by_desc_ascending _ _ Hs).
    rewrite <-fmap_reverse, reverse_take, length_reverse, reverse_involutive. done.
Qed.


Lemma perform_course_ids db op :
  c_id <$> courses (perform db op).2 = c_id <$> courses db.
Proof.
  destruct (perform_cases db op)
    as [-> | [(rnd & now & args & _ & _ & _ & ->)
           | [(now & args & s0 & rs & c0 & rc & _ & _ & _ & _ & _ & ->)
             | (args & e0 & re & _ & _ & ->)]]]; [done|done| |];
    simpl; rewrite <-list_fmap_compose; apply list_fmap_ext; intros i c _;
    apply bump_id.
Qed.

Lemma insert_message_inv db m db1 :
  ServerSql.insert_message db m = Some db1 →
  (m_id m ∉ m_id <$> chat_history db)
  ∧ db1 = mkTables (students db) (courses db) (enrollments db)
                   (chat_history db ++ [m]) (enrollmentIdCounter db).
Proof. unfold ServerSql.insert_message. case_decide; naive_solver. Qed.


Lemma store_ok_insert_message db m db1 :
  ServerSql.insert_message db m = Some db1 → store_ok db → store_ok db1.
Proof. intros [_ ->]%insert_message_inv Hok. exact Hok. Qed.

Lemma store_ok_seeded : store_ok (foldl ServerSql.insert_course empty_tables SEED_COURSES).
Proof.
  split_and!.
  - intros email. cbn. lia.
  - intros c1 c2 H1 H2. cbn in H1, H2.
    repeat (apply elem_of_cons in H1 as [->|H1]);
      try (by apply elem_of_nil in H1);
      repeat (apply elem_of_cons in H2 as [->|H2]);
      try (by apply elem_of_nil in H2); intros E; first [reflexivity | discriminate E].
  - intros sid cid. cbn. lia.
  - intros c Hc. cbn in Hc.
    repeat (apply elem_of_cons in Hc as [->|Hc]); [done..|by apply elem_of_nil in Hc].
  - intros c Hc. cbn in Hc.
    repeat (apply elem_of_cons in Hc as [->|Hc]); [done..|by apply elem_of_nil in Hc].
  - intros e He. cbn in He. by apply elem_of_nil in He.
Qed.

#[local] Arguments rounds : simpl never.
#[local] Arguments callLLM : simpl never.

Section Server_properties.

Context (AI_run : nat → list Message → AIResponse)
        (JSON_stringify : gmap string string → string)
        (random_suffix now_iso : nat → string)
        (trim : string → string).

Local Abbreviation callLLM' := (callLLM AI_run JSON_stringify random_suffix now_iso).
Local Abbreviation handleChat' :=
  (handleChat AI_run JSON_stringify random_suffix now_iso trim).
Local Abbreviation onRequest' :=
  (onRequest AI_run JSON_stringify random_suffix now_iso trim).
Local Abbreviation serve_all' :=
  (serve_all AI_run JSON_stringify random_suffix now_iso trim).

(** A request without a message, or with one that is blank once trimmed,
    is answered 400 "Empty message": nothing is stored and the model is
    not invoked. *)
Theorem handleChat_empty_message d a message :
  (message = None ∨ ∃ m, message = Some m ∧ trim m = "") →
  handleChat' d a message = (Returned (mkResponse 400 (JsonError "Empty message")), a).
Proof.
  intros [-> | (m & -> & Hm)]; [done|].
  unfold handleChat. simpl. by rewrite Hm.
Qed.


(** [_handleHistory] answers 200 with every stored message, once each,
    ordered by timestamp; rows stored in timestamp order come back as
    stored. *)
Theorem handleHistory_all_messages a :
  ∃ ms,
    handleHistory a = mkResponse 200 (JsonMessages ms)
    ∧ ms ≡ₚ chat_history (ea_sql a)
    ∧ Sorted (λ m1 m2, String.le (m_timestamp m1) (m_timestamp m2)) ms
    ∧ (Sorted (λ m1 m2, String.le (m_timestamp m1) (m_timestamp m2))
              (chat_history (ea_sql a)) →
       ms = chat_history (ea_sql a)).
Proof.
  exists (ServerSql.all_messages (ea_sql a)). unfold ServerSql.all_messages.
  split_and!; [done | apply order_by_perm | apply order_by_sorted
              | apply order_by_sorted_id].
Qed.

(** A request that is neither a POST to a path ending in [/chat] nor a GET
    to a path ending in [/history] is answered 404 "Not found" and changes
    nothing. *)
Theorem onRequest_not_found d a request :
  ¬ (endsWith (pathname request) "/chat" = true ∧ method request = "POST") →
  ¬ (endsWith (pathname request) "/history" = true ∧ method request = "GET") →
  onRequest' d a request = (Returned (mkResponse 404 (PlainText "Not found")), a).
Proof.
  intros Hchat Hhist. unfold onRequest.
  destruct (endsWith (pathname request) "/chat") eqn:E1;
    destruct (String.eqb_spec (method request) "POST") as [E2|E2]; simpl;
    try (exfalso; by apply Hchat);
    destruct (endsWith (pathname request) "/history") eqn:E3;
    destruct (String.eqb_spec (method request) "GET") as [E4|E4]; simpl;
    try (exfalso; by apply Hhist); done.
Qed.

(** Routing is by the end of the path: whatever comes before, a POST to a
    path ending in [/chat] is handled as a chat, and a GET to a path
    ending in [/history] returns the history and changes nothing. *)
Theorem onRequest_routes_by_suffix d a (before : string) message :
  onRequest' d a (mkRequest (before +:+ "/chat") "POST" message)
  = handleChat' d a message
  ∧ onRequest' d a (mkRequest (before +:+ "/history") "GET" message)
    = (Returned (handleHistory a), a).
Proof.
  unfold onRequest. simpl. rewrite !endsWith_append. simpl.
  split; [done|]. by rewrite andb_false_r.
Qed.

(** What a chat leaves: the agent as it was; or the agent where the loop
    or the second INSERT stopped; or the synced agent with both rows. *)
Lemma handleChat_final d a message :
  (handleChat' d a message).2 = a
  ∨ ∃ user left st,
      ServerSql.insert_message (ea_sql a) user = Some (sql st)
      ∧ ((handleChat' d a message).1 = Threw
         ∧ (handleChat' d a message).2 =
             stopped a (rounds AI_run JSON_stringify random_suffix now_iso left st).2
         ∨ ∃ reply assistant sql2,
             ServerSql.insert_message
               (sql (rounds AI_run JSON_stringify random_suffix now_iso left st).2)
               assistant = Some sql2
             ∧ handleChat' d a message =
                 (Returned (mkResponse 200 (JsonReply reply
                    (ea_state (syncState (mkEnrollmentAgent sql2 (ea_state a)
                       (ai_calls (rounds AI_run JSON_stringify random_suffix now_iso
                                         left st).2)
                       (draws (rounds AI_run JSON_stringify random_suffix now_iso
                                      left st).2)))))),
                  syncState (mkEnrollmentAgent sql2 (ea_state a)
                    (ai_calls (rounds AI_run JSON_stringify random_suffix now_iso
                                      left st).2)
                    (draws (rounds AI_run JSON_stringify random_suffix now_iso
                                   left st).2)))).
Proof.
  unfold handleChat. destruct message as [m|]; simpl; [|by left].
  destruct (String.eqb (trim m) ""); [by left|].
  destruct (ServerSql.insert_message (ea_sql a) _) as [sql1|] eqn:E1; [|by left].
  right.
  eexists _, maxRounds, (mkAgent (chat_context sql1) sql1 (ea_ai_calls a) (ea_draws a)).
  split; [exact E1|]. unfold callLLM.
  destruct (rounds _ _ _ _ _ _) as [[reply|] ag]; simpl; [|by left].
  destruct (ServerSql.insert_message (sql ag) _) as [sql2|] eqn:E2; [|by left].
  right. by eexists _, _, _.
Qed.

Lemma onRequest_final d a request :
  (onRequest' d a request).2 = a
  ∨ (onRequest' d a request) = handleChat' d a (body_message request).
Proof. unfold onRequest. destruct (_ && _); [by right|]. left. by destruct (_ && _). Qed.

Lemma onRequest_current_student d a request :
  currentStudentId (ea_state (onRequest' d a request).2) = currentStudentId (ea_state a)
  ∧ currentStudentName (ea_state (onRequest' d a request).2)
    = currentStudentName (ea_state a).
Proof.
  destruct (onRequest_final d a request) as [->| ->]; [done|].
  destruct (handleChat_final d a (body_message request))
    as [->|(user & left & st & _ & [[_ ->]|(reply & assistant & sql2 & _ & ->)])];
    done.
Qed.

(** No request sets the current student, so an agent that has none keeps
    having none, and every chat it answers reports an empty list of
    enrolled courses, whatever enrollments the chat made. *)
Theorem no_current_student_no_enrolled_courses a requests d request reply st :
  currentStudentId (ea_state a) = None →
  (onRequest AI_run JSON_stringify random_suffix now_iso trim d
     (serve_all AI_run JSON_stringify random_suffix now_iso trim a requests) request).1
  = Returned (mkResponse 200 (JsonReply reply st)) →
  currentStudentId st = None ∧ enrolledCourses st = [].
Proof.
  intros Hnone.
  assert (currentStudentId (ea_state (serve_all' a requests)) = None) as Hkeep.
  { revert a Hnone. induction requests as [|[d0 r0] requests IH]; intros a Hnone; [done|].
    simpl. apply IH. by rewrite (proj1 (onRequest_current_student _ _ _)). }
  generalize dependent (serve_all' a requests). clear a Hnone. intros a Hnone.
  unfold onRequest. destruct (_ && _).
  - destruct (handleChat_final d a (body_message request))
      as [Hsame|(user & left & st0 & _ & [[-> _]|(reply0 & assistant & sql2 & _ & ->)])].
    + unfold handleChat in *. destruct (body_message request) as [m|]; simpl in *; [|done].
      destruct (String.eqb (trim m) ""); [done|].
      destruct (ServerSql.insert_message (ea_sql a) _); [|done].
      destruct (callLLM _ _ _ _ _) as [[text|] ag]; [|done].
      destruct (ServerSql.insert_message (sql ag) _); [|done].
      simpl in *. intros [= _ <-]. simpl. by rewrite Hnone.
    + done.
    + simpl. intros [= _ <-]. simpl. by rewrite Hnone.
  - by destruct (_ && _).
Qed.

Lemma onRequest_store (P : Tables → Prop) d a request :
  (∀ db op, P db → P (perform db op).2) →
  (∀ db m db1, ServerSql.insert_message db m = Some db1 → P db → P db1) →
  P (ea_sql a) → P (ea_sql (onRequest' d a request).2).
Proof.
  intros Hstep Hins HP.
  destruct (onRequest_final d a request) as [->| ->]; [done|].
  destruct (handleChat_final d a (body_message request))
    as [->|(user & left & st & E1 & [[_ ->]|(reply & assistant & sql2 & E2 & ->)])];
    [done| |]; simpl.
  - apply rounds_store; [done|]. by eapply Hins.
  - eapply Hins; [exact E2|]. apply rounds_store; [done|]. by eapply Hins.
Qed.

Lemma onRequest_store_ok d a request :
  store_ok (ea_sql a) → store_ok (ea_sql (onRequest' d a request).2).
Proof.
  apply onRequest_store; [apply perform_store_ok | apply store_ok_insert_message].
Qed.

Lemma serve_all_store_ok a requests :
  store_ok (ea_sql a) → store_ok (ea_sql (serve_all' a requests)).
Proof.
  revert a. induction requests as [|[d r] requests IH]; intros a Hok; [done|].
  simpl. apply IH. by apply onRequest_store_ok.
Qed.

Lemma onRequest_course_ids d a request :
  c_id <$> courses (ea_sql (onRequest' d a request).2) = c_id <$> courses (ea_sql a).
Proof.
  apply (onRequest_store (λ db, c_id <$> courses db = c_id <$> courses (ea_sql a)));
    [|by intros db m db1 [_ ->]%insert_message_inv|done].
  intros db op Hdb. by rewrite perform_course_ids.
Qed.

Lemma serve_all_course_ids a requests :
  c_id <$> courses (ea_sql (serve_all' a requests)) = c_id <$> courses (ea_sql a).
Proof.
  revert a. induction requests as [|[d r] requests IH]; intros a; [done|].
  simpl. by rewrite IH, onRequest_course_ids.
Qed.

(** An agent started on empty tables and then serving any sequence of
    requests, whatever the model answers, has a store that meets the
    constraints of the schema and the consistency rules, and its courses
    are the five seeded ones. *)
Theorem fresh_agent_store_ok requests :
  let a := serve_all' (onStart new_agent) requests in
  store_ok (ea_sql a)
  ∧ c_id <$> courses (ea_sql a) = seed_id <$> SEED_COURSES.
Proof.
  split.
  - apply serve_all_store_ok. exact store_ok_seeded.
  - by rewrite serve_all_course_ids.
Qed.

End Server_properties.

Lemma seed_courses db :
  foldl ServerSql.insert_course db SEED_COURSES =
    mkTables (students db)
      (courses db
         ++ ((λ c, mkCourse (seed_id c) (seed_name c) (seed_instructor c)
                            (seed_capacity c) 0) <$> SEED_COURSES))
      (enrollments db) (chat_history db) (enrollmentIdCounter db).
Proof.
  unfold SEED_COURSES, ServerSql.insert_course. simpl. by rewrite <-!app_assoc.
Qed.

Lemma onStart_nonempty a : courses (ea_sql a) ≠ [] → onStart a = syncState a.
Proof.
  intros Hne. destruct a as [db state calls n]. unfold onStart.
  rewrite decide_False; [done|]. simpl in *. by destruct (courses db).
Qed.

Lemma onStart_empty a :
  courses (ea_sql a) = [] →
  onStart a =
    syncState (mkEnrollmentAgent (foldl ServerSql.insert_course (ea_sql a) SEED_COURSES)
                                 (ea_state a) (ea_ai_calls a) (ea_draws a)).
Proof. intros E. unfold onStart. rewrite decide_True; [done|]. by rewrite E. Qed.

(** [onStart] seeds the five courses, with no enrollment counted, when the
    course table is empty; it leaves a store that has courses as it is; it
    never touches the other tables; and starting twice is starting once. *)
Theorem onStart_seeds_once a :
  onStart (onStart a) = onStart a
  ∧ (courses (ea_sql a) ≠ [] → ea_sql (onStart a) = ea_sql a)
  ∧ (courses (ea_sql a) = [] →
     courses (ea_sql (onStart a)) =
       (λ c, mkCourse (seed_id c) (seed_name c) (seed_instructor c) (seed_capacity c) 0)
         <$> SEED_COURSES)
  ∧ students (ea_sql (onStart a)) = students (ea_sql a)
  ∧ enrollments (ea_sql (onStart a)) = enrollments (ea_sql a)
  ∧ chat_history (ea_sql (onStart a)) = chat_history (ea_sql a).
Proof.
  destruct (decide (courses (ea_sql a) = [])) as [E|E].
  - rewrite (onStart_empty a E).
    set (b := mkEnrollmentAgent _ _ _ _).
    assert (ea_sql (syncState b) = foldl ServerSql.insert_course (ea_sql a) SEED_COURSES)
      as Hsql by done.
    rewrite Hsql, seed_courses, E.
    split_and!; [|done..].
    rewrite onStart_nonempty; [apply syncState_idem|].
    rewrite Hsql, seed_courses, E. done.
  - rewrite (onStart_nonempty a E).
    split_and!; [|done|done|done..].
    rewrite onStart_nonempty; [apply syncState_idem | done].
Qed.

(** ** The further properties on the sample data *)

Lemma sample_within_capacity : within_capacity Sample.db_taken.
Proof.
  intros c Hc. simpl in Hc.
  apply elem_of_cons in Hc as [->|Hc]; [|apply list_elem_of_singleton in Hc as ->];
    vm_compute; discriminate.
Defined.

Lemma sample_references_exist : references_exist Sample.db_taken.
Proof.
  intros e He. simpl in He. apply list_elem_of_singleton in He as ->.
  split; [exists Sample.alice | exists (Sample.cs101 1)]; (split; [by left | reflexivity]).
Defined.

Lemma sample_email_unique_taken : Schema.email_unique Sample.db_taken.
Proof.
  intros email. unfold Sql.students_by_email.
  etransitivity; [apply length_filter | simpl; lia].
Defined.

Lemma sample_store_ok : store_ok Sample.db_taken.
Proof.
  split; [exact sample_email_unique_taken|]. split; [exact sample_course_pk|].
  split; [exact sample_pair_unique|]. split; [exact sample_counts_consistent|].
  split; [exact sample_within_capacity | exact sample_references_exist].
Defined.

Lemma enroll_then_drop_restores_witness :
  let back := dropCourse (enrollStudent Sample.stamp Sample.db_taken
                            Sample.alice_math201).2 Sample.alice_math201 in
  back.1 = "Successfully dropped student STU-A1B2C3 from course MATH201."
  ∧ students back.2 = students Sample.db_taken
  ∧ courses back.2 = courses Sample.db_taken
  ∧ enrollments back.2 = enrollments Sample.db_taken
  ∧ chat_history back.2 = chat_history Sample.db_taken.
Proof.
  apply (enroll_then_drop_restores Sample.stamp Sample.db_taken Sample.alice_math201).
  vm_compute. reflexivity.
Defined.

Lemma dropCourse_twice_witness :
  let first := dropCourse Sample.db_taken Sample.alice_cs101 in
  first.1 = "Successfully dropped student STU-A1B2C3 from course CS101."
  ∧ Sql.enrollments_of_pair first.2 (Some "STU-A1B2C3") (Some "CS101") = []
  ∧ dropCourse first.2 Sample.alice_cs101 =
      ("Student STU-A1B2C3 is not enrolled in CS101.", first.2).
Proof.
  apply (dropCourse_twice Sample.db_taken Sample.alice_cs101
           (mkEnrollment 1 (Some "STU-A1B2C3") (Some "CS101") Sample.stamp));
    [by left | reflexivity | reflexivity].
Defined.

Lemma enrolled_count_within_bounds_witness :
  Forall (λ c, (0 <= c_enrolled_count c <= c_capacity c)%Z)
         (courses (perform_all Sample.db_taken Sample.some_ops)).
Proof.
  apply Forall_forall.
  apply (enrolled_count_within_bounds Sample.db_taken Sample.some_ops);
    [exact sample_course_pk | exact sample_pair_unique
    | exact sample_counts_consistent | exact sample_within_capacity].
Defined.

Lemma references_exist_preserved_witness :
  references_exist (perform_all Sample.db_taken Sample.some_ops).
Proof.
  apply (references_exist_preserved Sample.db_taken Sample.some_ops).
  exact sample_references_exist.
Defined.

Lemma email_unique_preserved_witness :
  Schema.email_unique (perform_all Sample.db_taken Sample.some_ops).
Proof.
  apply (email_unique_preserved Sample.db_taken Sample.some_ops).
  exact sample_email_unique_taken.
Defined.

Lemma listCourses_lists_every_course_witness :
  ∃ cs, cs ≡ₚ courses Sample.db_taken
        ∧ Sorted (λ a b, String.le (c_id a) (c_id b)) cs
        ∧ (listCourses Sample.db_taken).1 =
            "Available courses:" +:+ nl +:+ join nl (course_line <$> cs).
Proof.
  apply (listCourses_lists_every_course Sample.db_taken). discriminate.
Defined.

Lemma checkEnrollment_after_enroll_witness :
  let db1 := (enrollStudent Sample.stamp Sample.db_taken Sample.alice_math201).2 in
  ∃ s es e c,
    s ∈ students Sample.db_taken ∧ Some "STU-A1B2C3" = Some (s_id s)
    ∧ checkEnrollment db1 (Some "STU-A1B2C3") =
        ("Enrollments for " +:+ js_str (s_name s) +:+ " (" +:+ "STU-A1B2C3" +:+ "):"
           +:+ nl +:+ join nl (enrollment_line <$> es), db1)
    ∧ (e, c) ∈ es
    ∧ e_student_id e = Some "STU-A1B2C3"
    ∧ e_course_id e = Some "MATH201"
    ∧ e_enrolled_at e = Sample.stamp
    ∧ Some "MATH201" = Some (c_id c).
Proof.
  apply (checkEnrollment_after_enroll Sample.stamp Sample.db_taken Sample.alice_math201).
  vm_compute. reflexivity.
Defined.

Lemma executeTool_advertised_witness :
  ∃ op, executeTool "EVE001" Sample.stamp Sample.db_taken "drop_course"
                    {[ "student_id" := "STU-A1B2C3"; "course_id" := "CS101" ]}
        = perform Sample.db_taken op
        ∧ op = OpDrop Sample.alice_cs101.
Proof.
  destruct (executeTool_advertised "EVE001" Sample.stamp Sample.db_taken "drop_course"
              {[ "student_id" := "STU-A1B2C3"; "course_id" := "CS101" ]})
    as (op & Hrun & Hop).
  { cbn. do 3 right. by left. }
  exists op. split; [exact Hrun|].
  destruct op as [r t a| |t a|a|sid];
    [destruct Hop as [Hname _]; discriminate Hname
    | discriminate Hop
    | destruct Hop as [Hname _]; discriminate Hname
    | destruct Hop as [_ ->]
    | destruct Hop as [Hname _]; discriminate Hname].
  vm_compute. reflexivity.
Defined.

Lemma callLLM_keeps_store_ok_witness :
  store_ok (sql (callLLM Demo.ai_enrolls Sample.stringify Sample.suffix Sample.clock
                         (mkAgent (messages Sample.agent0) Sample.db_taken [] 0)).2).
Proof.
  apply (callLLM_keeps_store_ok Demo.ai_enrolls Sample.stringify Sample.suffix
           Sample.clock (mkAgent (messages Sample.agent0) Sample.db_taken [] 0)).
  exact sample_store_ok.
Defined.

Lemma rounds_final_answer_witness :
  let st := mkAgent (messages Sample.agent0) Sample.db_taken
                    [mkAIResponse None (Some Sample.two_calls)] 2 in
  callLLM Sample.ai_two_calls Sample.stringify Sample.suffix Sample.clock st
  = (Returned "I've listed the courses and registered you.",
     mkAgent (messages st) (sql st)
             (ai_calls st
                ++ [mkAIResponse (Some "I've listed the courses and registered you.") None])
             (draws st)).
Proof.
  apply (rounds_final_answer Sample.ai_two_calls Sample.stringify Sample.suffix
           Sample.clock 4); [reflexivity | reflexivity | discriminate].
Defined.

Lemma chat_context_window_witness :
  chat_context Demo.db_chatty =
    [ mkMessage "system" SYSTEM_PROMPT;
      mkMessage "user" "Hello";
      mkMessage "assistant" "Hi! How can I help?" ].
Proof.
  apply (chat_context_window Demo.db_chatty).
  repeat constructor.
Defined.

Lemma handleChat_empty_message_witness :
  handleChat Sample.ai_mute Sample.stringify Sample.suffix Sample.clock Demo.trim
             Demo.draws1 Demo.agent (Some "   ")
  = (Returned (mkResponse 400 (JsonError "Empty message")), Demo.agent).
Proof.
  apply (handleChat_empty_message Sample.ai_mute Sample.stringify Sample.suffix
           Sample.clock Demo.trim Demo.draws1 Demo.agent (Some "   ")).
  right. exists "   ". split; [reflexivity | vm_compute; reflexivity].
Defined.


Lemma handleHistory_all_messages_witness :
  handleHistory Demo.agent = mkResponse 200 (JsonMessages (chat_history Demo.db_chatty)).
Proof.
  destruct (handleHistory_all_messages Demo.agent) as (ms & -> & _ & _ & Hsame).
  rewrite Hsame; [reflexivity|]. repeat constructor.
Defined.

Lemma onRequest_not_found_witness :
  onRequest Sample.ai_mute Sample.stringify Sample.suffix Sample.clock Demo.trim
            Demo.draws1 Demo.agent
            (mkRequest "/agents/EnrollmentAgent/default/chat" "GET" None)
  = (Returned (mkResponse 404 (PlainText "Not found")), Demo.agent).
Proof.
  apply (onRequest_not_found Sample.ai_mute Sample.stringify Sample.suffix Sample.clock
           Demo.trim Demo.draws1 Demo.agent
           (mkRequest "/agents/EnrollmentAgent/default/chat" "GET" None)).
  - intros [_ Hmethod]. discriminate Hmethod.
  - intros [Hpath _]. vm_compute in Hpath. discriminate Hpath.
Defined.

Lemma no_current_student_no_enrolled_courses_witness :
  ∃ reply st,
    (onRequest Demo.ai_enrolls Sample.stringify Sample.suffix Sample.clock Demo.trim
               Demo.draws1 Demo.agent (Demo.chat_request "Enroll me in MATH201")).1
    = Returned (mkResponse 200 (JsonReply reply st))
    ∧ reply = "You are enrolled in MATH201."
    ∧ c_enrolled_count <$> availableCourses st = [1; 1]%Z
    ∧ currentStudentId st = None
    ∧ enrolledCourses st = [].
Proof.
  eexists _, _. split; [vm_compute; reflexivity|].
  split; [reflexivity|]. split; [reflexivity|].
  apply (no_current_student_no_enrolled_courses Demo.ai_enrolls Sample.stringify
           Sample.suffix Sample.clock Demo.trim Demo.agent [] Demo.draws1
           (Demo.chat_request "Enroll me in MATH201")
           "You are enrolled in MATH201.");
    [reflexivity | vm_compute; reflexivity].
Defined.

Lemma onStart_seeds_once_witness :
  ea_sql (onStart Demo.agent) = Demo.db_chatty
  ∧ c_id <$> courses (ea_sql (onStart new_agent))
    = ["CS101"; "MATH201"; "ENG102"; "PHYS101"; "HIST101"].
Proof.
  split.
  - apply (onStart_seeds_once Demo.agent). discriminate.
  - destruct (onStart_seeds_once new_agent) as (_ & _ & Hseed & _).
    rewrite Hseed; reflexivity.
Defined.
